(** * Lightbox gallery (script.js): navigation state machine, preloading,
      swipe classification and manifest loading.

    The script keeps four module-level variables ([photos], [currentIndex],
    [touchStartX], [touchEndX]) and writes to a handful of DOM elements.
    Both are modelled as one explicit [State] that every function of the
    script takes and returns.  JavaScript numbers that hold indices and
    screen coordinates are integers ([Z]); a number that may be NaN is an
    [option Z] with [None] for NaN. *)

From Stdlib Require Import ZArith List String Ascii Bool Lia.
From Stdlib Require Import Sorted Permutation DecimalString.
Import ListNotations.

Local Open Scope string_scope.
Local Open Scope list_scope.
Local Open Scope Z_scope.

(** ** The host's [Date]

    What [new Date(s)] yields for a string and how a time value splits into
    local calendar fields belongs to the JavaScript host (parsing beyond the
    ISO forms and the time zone are its own), so the script is modelled
    against this interface. *)

Class DateHost := {
  (** time value of [new Date(s)]; [None] is an invalid date (NaN) *)
  Date_value : string -> option Z;
  (** local-time accessors of a valid date, by time value *)
  getMonth : Z -> Z;
  getDate : Z -> Z;
  getFullYear : Z -> Z
}.

(** ** Data model *)

(** One entry of [manifest.photos]. *)
Record Photo := {
  filename : string;
  width : Z;
  height : Z;
  dateCaptured : string
}.

Record Manifest := {
  m_photos : option (list Photo)   (* [None]: the field is absent *)
}.

(** Outcome of [fetch('manifest.json')] followed by [response.json()]. *)
Inductive FetchResult :=
| NetworkError                                   (* fetch rejects *)
| Response (ok : bool) (body : option Manifest). (* [None]: json() rejects *)

(** A thumbnail built by [createGalleryItem]; [item_index] is the index its
    click and keydown closures captured.  Its image carries the [onload]
    handler that adds the class 'loaded'. *)
Record GalleryItem := {
  item_index : nat;
  item_size : Z * Z;          (* width and height behind [--aspect] *)
  item_label : string;        (* aria-label *)
  thumb_src : string;
  thumb_alt : string;
  thumb_loaded : bool         (* the image's classList contains 'loaded' *)
}.

(** Children the script puts into [#gallery]. *)
Inductive GalleryNode :=
| Item (it : GalleryItem)
| EmptyState (html : string).   (* a [div.empty-state] with this innerHTML *)

(** The [#lightbox-image] element. *)
Record ImageEl := {
  img_src : string;
  img_alt : string;
  img_loaded : bool;     (* classList contains 'loaded' *)
  img_onload : bool      (* the onload handler of updateLightboxContent is set *)
}.

Record Dom := {
  gallery : list GalleryNode;
  lightbox_hidden : bool;
  body_overflow : string;
  lightboxImage : ImageEl;
  lightboxCaption : string;
  prev_visibility : string;     (* lightboxPrev.style.visibility *)
  next_visibility : string;     (* lightboxNext.style.visibility *)
  loading_hidden : bool
}.

Record State := {
  photos : list Photo;
  currentIndex : Z;
  touchStartX : Z;
  touchEndX : Z;
  dom : Dom;
  fetched : list string;        (* urls given to a fresh [Image], oldest first *)
  console : list string         (* console.error messages, oldest first *)
}.

(** The specification's view of [currentIndex]. *)
Inductive ViewerState :=
| Closed
| OpenAt (i : Z).

Definition viewerState (s : State) : ViewerState :=
  if currentIndex s =? -1 then Closed else OpenAt (currentIndex s).

(** *** Field updates *)

Definition set_gallery (g : list GalleryNode) (d : Dom) : Dom :=
  {| gallery := g; lightbox_hidden := lightbox_hidden d;
     body_overflow := body_overflow d; lightboxImage := lightboxImage d;
     lightboxCaption := lightboxCaption d; prev_visibility := prev_visibility d;
     next_visibility := next_visibility d; loading_hidden := loading_hidden d |}.

Definition set_lightbox_hidden (b : bool) (d : Dom) : Dom :=
  {| gallery := gallery d; lightbox_hidden := b;
     body_overflow := body_overflow d; lightboxImage := lightboxImage d;
     lightboxCaption := lightboxCaption d; prev_visibility := prev_visibility d;
     next_visibility := next_visibility d; loading_hidden := loading_hidden d |}.

Definition set_body_overflow (v : string) (d : Dom) : Dom :=
  {| gallery := gallery d; lightbox_hidden := lightbox_hidden d;
     body_overflow := v; lightboxImage := lightboxImage d;
     lightboxCaption := lightboxCaption d; prev_visibility := prev_visibility d;
     next_visibility := next_visibility d; loading_hidden := loading_hidden d |}.

Definition set_lightboxImage (i : ImageEl) (d : Dom) : Dom :=
  {| gallery := gallery d; lightbox_hidden := lightbox_hidden d;
     body_overflow := body_overflow d; lightboxImage := i;
     lightboxCaption := lightboxCaption d; prev_visibility := prev_visibility d;
     next_visibility := next_visibility d; loading_hidden := loading_hidden d |}.

Definition set_lightboxCaption (v : string) (d : Dom) : Dom :=
  {| gallery := gallery d; lightbox_hidden := lightbox_hidden d;
     body_overflow := body_overflow d; lightboxImage := lightboxImage d;
     lightboxCaption := v; prev_visibility := prev_visibility d;
     next_visibility := next_visibility d; loading_hidden := loading_hidden d |}.

Definition set_nav (p n : string) (d : Dom) : Dom :=
  {| gallery := gallery d; lightbox_hidden := lightbox_hidden d;
     body_overflow := body_overflow d; lightboxImage := lightboxImage d;
     lightboxCaption := lightboxCaption d; prev_visibility := p;
     next_visibility := n; loading_hidden := loading_hidden d |}.

Definition set_loading_hidden (b : bool) (d : Dom) : Dom :=
  {| gallery := gallery d; lightbox_hidden := lightbox_hidden d;
     body_overflow := body_overflow d; lightboxImage := lightboxImage d;
     lightboxCaption := lightboxCaption d; prev_visibility := prev_visibility d;
     next_visibility := next_visibility d; loading_hidden := b |}.

Definition remove_loaded (i : ImageEl) : ImageEl :=
  {| img_src := img_src i; img_alt := img_alt i;
     img_loaded := false; img_onload := img_onload i |}.

Definition add_loaded (i : ImageEl) : ImageEl :=
  {| img_src := img_src i; img_alt := img_alt i;
     img_loaded := true; img_onload := img_onload i |}.

Definition with_photos (l : list Photo) (s : State) : State :=
  {| photos := l; currentIndex := currentIndex s; touchStartX := touchStartX s;
     touchEndX := touchEndX s; dom := dom s; fetched := fetched s;
     console := console s |}.

Definition with_currentIndex (i : Z) (s : State) : State :=
  {| photos := photos s; currentIndex := i; touchStartX := touchStartX s;
     touchEndX := touchEndX s; dom := dom s; fetched := fetched s;
     console := console s |}.

Definition with_touchStartX (x : Z) (s : State) : State :=
  {| photos := photos s; currentIndex := currentIndex s; touchStartX := x;
     touchEndX := touchEndX s; dom := dom s; fetched := fetched s;
     console := console s |}.

Definition with_touchEndX (x : Z) (s : State) : State :=
  {| photos := photos s; currentIndex := currentIndex s;
     touchStartX := touchStartX s; touchEndX := x; dom := dom s;
     fetched := fetched s; console := console s |}.

Definition with_dom (f : Dom -> Dom) (s : State) : State :=
  {| photos := photos s; currentIndex := currentIndex s;
     touchStartX := touchStartX s; touchEndX := touchEndX s; dom := f (dom s);
     fetched := fetched s; console := console s |}.

Definition fetch_image (url : string) (s : State) : State :=
  {| photos := photos s; currentIndex := currentIndex s;
     touchStartX := touchStartX s; touchEndX := touchEndX s; dom := dom s;
     fetched := fetched s ++ [url]; console := console s |}.

Definition console_error (msg : string) (s : State) : State :=
  {| photos := photos s; currentIndex := currentIndex s;
     touchStartX := touchStartX s; touchEndX := touchEndX s; dom := dom s;
     fetched := fetched s; console := console s ++ [msg] |}.

(** ** JavaScript helpers *)

(** [a[i]] on an array: [None] is [undefined] (any index outside the array). *)
Definition array_get {A} (a : list A) (i : Z) : option A :=
  if i <? 0 then None else nth_error a (Z.to_nat i).

(** [a.length] as a number. *)
Definition length_of {A} (a : list A) : Z := Z.of_nat (List.length a).

(** [String(n)] for an integer or NaN. *)
Definition String_of (n : option Z) : string :=
  match n with
  | Some z => NilZero.string_of_int (Z.to_int z)
  | None => "NaN"
  end.

Fixpoint repeat_string (n : nat) (fill : string) : string :=
  match n with
  | O => ""
  | S k => (fill ++ repeat_string k fill)%string
  end.

(** [s.padStart(n, fill)] for a one-character [fill]. *)
Definition padStart (n : nat) (fill : string) (s : string) : string :=
  (repeat_string (n - String.length s) fill ++ s)%string.

(** [a.forEach(function (x, index) ...)] visits these pairs in order. *)
Definition indexed {A} (a : list A) : list (nat * A) :=
  combine (seq 0 (List.length a)) a.

(** *** [Array.prototype.sort]

    The comparator's result goes through SortCompare, which reads NaN as
    [+0].  The language requires the sort to be stable; it is modelled by
    the stable insertion sort below: an element moves behind another only when the
    comparator is strictly positive on the pair.  On a consistent comparator
    the stable order is unique, so every engine returns this array; on an
    inconsistent one (a NaN among the results) the language leaves the order
    to the engine. *)

Definition SortCompare {A} (comparefn : A -> A -> option Z) (x y : A) : Z :=
  match comparefn x y with
  | Some v => v
  | None => 0
  end.

Fixpoint sort_insert {A} (comparefn : A -> A -> option Z) (x : A) (l : list A)
  : list A :=
  match l with
  | [] => [x]
  | y :: l' =>
      if SortCompare comparefn x y >? 0
      then y :: sort_insert comparefn x l'
      else x :: l
  end.

Fixpoint Array_sort {A} (comparefn : A -> A -> option Z) (l : list A) : list A :=
  match l with
  | [] => []
  | x :: l' => sort_insert comparefn x (Array_sort comparefn l')
  end.

(** ** The script *)

Section Script.

Context {host : DateHost}.

(** [formatDate]: MM/DD/YYYY from the local calendar fields. *)
Definition formatDate (dateString : string) : string :=
  let date := Date_value dateString in
  let month := padStart 2 "0" (String_of (option_map (fun t => getMonth t + 1) date)) in
  let day := padStart 2 "0" (String_of (option_map getDate date)) in
  let year := option_map getFullYear date in
  (month ++ "/" ++ day ++ "/" ++ String_of year)%string.

Definition createGalleryItem (photo : Photo) (index : nat) : GalleryItem :=
  {| item_index := index;
     item_size := (width photo, height photo);
     item_label := ("Photo from " ++ formatDate (dateCaptured photo))%string;
     thumb_src := ("images/thumbs/" ++ filename photo)%string;
     thumb_alt := ("Photo from " ++ formatDate (dateCaptured photo))%string;
     thumb_loaded := false |}.

(** [img.onload] of a thumbnail: [img.classList.add('loaded')]. *)
Definition thumb_add_loaded (it : GalleryItem) : GalleryItem :=
  {| item_index := item_index it; item_size := item_size it;
     item_label := item_label it; thumb_src := thumb_src it;
     thumb_alt := thumb_alt it; thumb_loaded := true |}.

(** The load event of the image in the gallery's child at position [n]: only
    a thumbnail has an image and a handler. *)
Fixpoint thumb_onload (n : nat) (g : list GalleryNode) {struct g}
  : list GalleryNode :=
  match g with
  | [] => []
  | node :: g' =>
      match n with
      | O => match node with
             | Item it => Item (thumb_add_loaded it) :: g'
             | EmptyState _ => node :: g'
             end
      | S k => node :: thumb_onload k g'
      end
  end.

Definition renderGallery (s : State) : State :=
  if length_of (photos s) =? 0
  then with_dom (set_gallery [EmptyState "<p>No photos yet</p>"]) s
  else with_dom
         (set_gallery
            (map (fun ip => Item (createGalleryItem (snd ip) (fst ip)))
                 (indexed (photos s))))
         s.

Definition updateLightboxContent (s : State) : State :=
  match array_get (photos s) (currentIndex s) with
  | None => s                                        (* if (!photo) return *)
  | Some photo =>
      let image :=
        {| img_src := ("images/full/" ++ filename photo)%string;
           img_alt := ("Photo from " ++ formatDate (dateCaptured photo))%string;
           img_loaded := false;
           img_onload := true |} in
      let prev := if currentIndex s >? 0 then "visible" else "hidden" in
      let next :=
        if currentIndex s <? length_of (photos s) - 1
        then "visible" else "hidden" in
      with_dom
        (fun d =>
           set_nav prev next
             (set_lightboxCaption (formatDate (dateCaptured photo))
                (set_lightboxImage image d)))
        s
  end.

(** The body of the [forEach] callback of [preloadAdjacent]. *)
Definition preload_one (s : State) (index : Z) : State :=
  if (index >=? 0) && (index <? length_of (photos s))
  then match array_get (photos s) index with
       | Some photo => fetch_image ("images/full/" ++ filename photo)%string s
       | None => s            (* not taken: the guard puts [index] in the array *)
       end
  else s.

Definition preloadAdjacent (s : State) : State :=
  let preloadIndexes := [currentIndex s - 1; currentIndex s + 1] in
  fold_left preload_one preloadIndexes s.

Definition openLightbox (index : Z) (s : State) : State :=
  let s := with_currentIndex index s in
  let s := updateLightboxContent s in
  let s := with_dom (set_lightbox_hidden false) s in
  let s := with_dom (set_body_overflow "hidden") s in
  preloadAdjacent s.

Definition closeLightbox (s : State) : State :=
  let s := with_dom (set_lightbox_hidden true) s in
  let s := with_dom (set_body_overflow "") s in
  let s := with_currentIndex (-1) s in
  with_dom (fun d => set_lightboxImage (remove_loaded (lightboxImage d)) d) s.

Definition prevPhoto (s : State) : State :=
  if currentIndex s >? 0
  then preloadAdjacent
         (updateLightboxContent (with_currentIndex (currentIndex s - 1) s))
  else s.

Definition nextPhoto (s : State) : State :=
  if currentIndex s <? length_of (photos s) - 1
  then preloadAdjacent
         (updateLightboxContent (with_currentIndex (currentIndex s + 1) s))
  else s.

Definition handleSwipe (s : State) : State :=
  let threshold := 50 in
  let diff := touchStartX s - touchEndX s in
  if Z.abs diff >? threshold
  then if diff >? 0 then nextPhoto s else prevPhoto s
  else s.

Definition handleTouchStart (screenX : Z) (s : State) : State :=
  with_touchStartX screenX s.

Definition handleTouchEnd (screenX : Z) (s : State) : State :=
  handleSwipe (with_touchEndX screenX s).

(** *** Event listeners *)

(** The document's keydown listener. *)
Definition document_keydown (key : string) (s : State) : State :=
  if lightbox_hidden (dom s) then s
  else if String.eqb key "Escape" then closeLightbox s
  else if String.eqb key "ArrowLeft" then prevPhoto s
  else if String.eqb key "ArrowRight" then nextPhoto s
  else s.

(** The keydown listener of a thumbnail. *)
Definition item_keydown (index : nat) (key : string) (s : State) : State :=
  if String.eqb key "Enter" || String.eqb key " "
  then openLightbox (Z.of_nat index) s
  else s.

(** The lightbox's own click listener (background click). *)
Definition lightbox_click (target_is_lightbox : bool) (s : State) : State :=
  if target_is_lightbox then closeLightbox s else s.

(** [lightboxImage.onload], when the handler is installed. *)
Definition image_onload (s : State) : State :=
  if img_onload (lightboxImage (dom s))
  then with_dom (fun d => set_lightboxImage (add_loaded (lightboxImage d)) d) s
  else s.

(** What a user or the browser can deliver to the page.  A thumbnail event
    names a child of [#gallery] by position. *)
Inductive Event :=
| ThumbClick (n : nat)
| ThumbKeydown (n : nat) (key : string)
| CloseClick
| PrevClick
| NextClick
| LightboxClick (target_is_lightbox : bool)
| DocumentKeydown (key : string)
| TouchStart (screenX : Z)
| TouchEnd (screenX : Z)
| ImageLoad
| ThumbLoad (n : nat).

(** The thumbnail at position [n], if that child is one. *)
Definition thumbnail_at (n : nat) (s : State) : option GalleryItem :=
  match nth_error (gallery (dom s)) n with
  | Some (Item it) => Some it
  | _ => None
  end.

(** Runs the listeners an event reaches.  A keydown on a thumbnail bubbles to
    the document's listener; the clicks on the prev and next controls stop
    propagation before the lightbox's listener; a load event does not
    bubble. *)
Definition dispatch (s : State) (e : Event) : State :=
  match e with
  | ThumbClick n =>
      match thumbnail_at n s with
      | Some it => openLightbox (Z.of_nat (item_index it)) s
      | None => s
      end
  | ThumbKeydown n key =>
      match thumbnail_at n s with
      | Some it => document_keydown key (item_keydown (item_index it) key s)
      | None => document_keydown key s
      end
  | CloseClick => closeLightbox s
  | PrevClick => prevPhoto s
  | NextClick => nextPhoto s
  | LightboxClick t => lightbox_click t s
  | DocumentKeydown key => document_keydown key s
  | TouchStart x => handleTouchStart x s
  | TouchEnd x => handleTouchEnd x s
  | ImageLoad => image_onload s
  | ThumbLoad n =>
      with_dom (fun d => set_gallery (thumb_onload n (gallery d)) d) s
  end.

Definition run (events : list Event) (s : State) : State :=
  fold_left dispatch events s.

(** The arrow function given to [photos.sort]. *)
Definition byDateDesc (a b : Photo) : option Z :=
  match Date_value (dateCaptured b), Date_value (dateCaptured a) with
  | Some tb, Some ta => Some (tb - ta)
  | _, _ => None
  end.

(** The [catch] block of [init]. *)
Definition init_catch (s : State) : State :=
  with_dom (set_gallery [EmptyState "<p>Failed to load photos</p>"])
    (console_error "Error loading photos:" s).

(** [init], resumed with the outcome of the fetch. *)
Definition init (r : FetchResult) (s : State) : State :=
  let s' :=
    match r with
    | NetworkError => init_catch s
    | Response false _ => init_catch s     (* throw new Error(...) *)
    | Response true None => init_catch s
    | Response true (Some manifest) =>
        let l := match m_photos manifest with   (* manifest.photos || [] *)
                 | Some l => l
                 | None => []
                 end in
        renderGallery (with_photos (Array_sort byDateDesc l) s)
    end in
  with_dom (set_loading_hidden true) s'.

(** The state when the script has run its top level: the variables as
    initialised, the page as the document [d] gives it, and nothing of the
    script's in [#gallery] yet. *)
Definition initial (d : Dom) : State :=
  {| photos := []; currentIndex := -1; touchStartX := 0; touchEndX := 0;
     dom := set_gallery [] d; fetched := []; console := [] |}.

(** A whole session: events before the manifest arrives, the manifest, events
    after it. *)
Definition session (d : Dom) (before : list Event) (r : FetchResult)
  (after : list Event) : State :=
  run after (init r (run before (initial d))).

End Script.

(** ** A concrete host, for running the script on examples

    A host in the UTC zone that reads the ISO date-only form [YYYY-MM-DD]
    (midnight UTC of a real calendar day) and rejects every other string. *)

Module UTC.

Definition ms_per_day : Z := 86400000.

Definition days_from_civil (y m d : Z) : Z :=
  let y' := if m <=? 2 then y - 1 else y in
  let era := y' / 400 in
  let yoe := y' - era * 400 in
  let doy := (153 * (if m >? 2 then m - 3 else m + 9) + 2) / 5 + d - 1 in
  let doe := yoe * 365 + yoe / 4 - yoe / 100 + doy in
  era * 146097 + doe - 719468.

Definition civil_from_days (z : Z) : Z * Z * Z :=
  let z := z + 719468 in
  let era := z / 146097 in
  let doe := z - era * 146097 in
  let yoe := (doe - doe / 1460 + doe / 36524 - doe / 146096) / 365 in
  let doy := doe - (365 * yoe + yoe / 4 - yoe / 100) in
  let mp := (5 * doy + 2) / 153 in
  let d := doy - (153 * mp + 2) / 5 + 1 in
  let m := if mp <? 10 then mp + 3 else mp - 9 in
  let y := yoe + era * 400 + (if m <=? 2 then 1 else 0) in
  (y, m, d).

Definition digit (c : ascii) : option Z :=
  let n := Z.of_nat (nat_of_ascii c) in
  if (48 <=? n) && (n <=? 57) then Some (n - 48) else None.

Fixpoint number (cs : list ascii) (acc : Z) : option Z :=
  match cs with
  | [] => Some acc
  | c :: cs' =>
      match digit c with
      | Some v => number cs' (10 * acc + v)
      | None => None
      end
  end.

Definition parse (s : string) : option Z :=
  match list_ascii_of_string s with
  | [y1; y2; y3; y4; "-"%char; m1; m2; "-"%char; d1; d2] =>
      match number [y1; y2; y3; y4] 0, number [m1; m2] 0, number [d1; d2] 0 with
      | Some y, Some m, Some d =>
          let days := days_from_civil y m d in
          match civil_from_days days with
          | (y', m', d') =>
              if (y' =? y) && (m' =? m) && (d' =? d)
              then Some (days * ms_per_day)
              else None
          end
      | _, _, _ => None
      end
  | _ => None
  end.

Definition month_of (t : Z) : Z :=
  match civil_from_days (t / ms_per_day) with (_, m, _) => m - 1 end.

Definition day_of (t : Z) : Z :=
  match civil_from_days (t / ms_per_day) with (_, _, d) => d end.

Definition year_of (t : Z) : Z :=
  match civil_from_days (t / ms_per_day) with (y, _, _) => y end.

Definition host : DateHost :=
  {| Date_value := parse; getMonth := month_of;
     getDate := day_of; getFullYear := year_of |}.

End UTC.

(** ** Vocabulary of the specification *)

Definition size (s : State) : Z := length_of (photos s).

Definition full_url (photo : Photo) : string :=
  ("images/full/" ++ filename photo)%string.

(** The members of [{i-1, i+1}] that lie in [[0, n)]. *)
Definition preload_targets (i n : Z) : list Z :=
  filter (fun k => (0 <=? k) && (k <? n)) [i - 1; i + 1].

(** Full-size urls of the photos at the given indices. *)
Definition urls_at (l : list Photo) (ks : list Z) : list string :=
  flat_map (fun k => match array_get l k with
                     | Some photo => [full_url photo]
                     | None => []
                     end) ks.

Definition fetch_images (urls : list string) (s : State) : State :=
  fold_left (fun st url => fetch_image url st) urls s.

(** The affordance rule: previous enabled iff [i > 0], next enabled iff
    [i < n - 1]. *)
Definition nav_rule (i n : Z) (d : Dom) : Prop :=
  (prev_visibility d = "visible" <-> i > 0) /\
  (next_visibility d = "visible" <-> i < n - 1).

(** The viewer is on screen and the page behind it does not scroll. *)
Definition shown (s : State) : Prop :=
  lightbox_hidden (dom s) = false /\ body_overflow (dom s) = "hidden".

(** The state with the visibility of the viewer and the page's scroll lock
    taken from [s0]. *)
Definition keep_shown (s0 s : State) : State :=
  with_dom (fun d => set_body_overflow (body_overflow (dom s0))
                       (set_lightbox_hidden (lightbox_hidden (dom s0)) d)) s.

(** The image element references the resource [url]. *)
Definition holds_reference (s : State) (url : string) : Prop :=
  img_src (lightboxImage (dom s)) = url.

(** Closing after [open(i)] releases the reference to the resource that was
    shown: whatever the image element referenced, it no longer does. *)
Definition released_after_close {host : DateHost} (s : State) (i : Z) : Prop :=
  forall url,
    holds_reference (openLightbox i s) url ->
    ~ holds_reference (closeLightbox (openLightbox i s)) url.

(** The capture time of a photo whose date the host can read. *)
Definition time_of {host : DateHost} (p : Photo) : Z :=
  match Date_value (dateCaptured p) with
  | Some t => t
  | None => 0
  end.

(** The manifest's contract: [dateCaptured] is parseable. *)
Definition dated {host : DateHost} (p : Photo) : Prop :=
  Date_value (dateCaptured p) <> None.

(** Sorted by [dateCaptured], newest first, in the weakest reading: an entry
    that comes before another does not have the earlier date, whenever the
    host can read both dates. *)
Definition newest_first {host : DateHost} (l : list Photo) : Prop :=
  forall i j a b ta tb,
    (i < j)%nat ->
    nth_error l i = Some a -> nth_error l j = Some b ->
    Date_value (dateCaptured a) = Some ta ->
    Date_value (dateCaptured b) = Some tb ->
    ta >= tb.

(** *** Invariants of a session *)

(** A thumbnail without its 'loaded' mark, and a gallery without the marks:
    what [renderGallery] put there. *)
Definition thumb_as_built (it : GalleryItem) : GalleryItem :=
  {| item_index := item_index it; item_size := item_size it;
     item_label := item_label it; thumb_src := thumb_src it;
     thumb_alt := thumb_alt it; thumb_loaded := false |}.

Definition gallery_as_built (g : list GalleryNode) : list GalleryNode :=
  map (fun node => match node with
                   | Item it => Item (thumb_as_built it)
                   | EmptyState html => EmptyState html
                   end) g.

(** Every thumbnail in the gallery carries an index of the catalogue. *)
Definition thumbnails_valid (s : State) : Prop :=
  forall n it, thumbnail_at n s = Some it -> Z.of_nat (item_index it) < size s.

(** [currentIndex] is [-1] or an index of the catalogue, and in the second
    case the affordances follow the rule. *)
Definition index_valid (s : State) : Prop :=
  currentIndex s = -1 \/
  (0 <= currentIndex s < size s /\
   nav_rule (currentIndex s) (size s) (dom s)).

Definition consistent (s : State) : Prop :=
  thumbnails_valid s /\ index_valid s.

(** Nothing to open and nothing opened: an empty catalogue, no thumbnail, the
    index at [-1], no fetch started, no error logged, and the viewer still
    hidden if the document [d] had it hidden. *)
Definition never_opened (d : Dom) (s : State) : Prop :=
  photos s = [] /\
  (forall n, thumbnail_at n s = None) /\
  currentIndex s = -1 /\
  fetched s = [] /\
  console s = [] /\
  (lightbox_hidden d = true -> lightbox_hidden (dom s) = true).

(** ** Sample data *)

Definition photo_of (name date : string) : Photo :=
  {| filename := name; width := 4; height := 3; dateCaptured := date |}.

Definition sample_photos : list Photo :=
  [ photo_of "a.jpg" "2024-05-01"; photo_of "b.jpg" "2024-04-01";
    photo_of "c.jpg" "2024-03-01"; photo_of "d.jpg" "2024-02-01";
    photo_of "e.jpg" "2024-01-01" ].

Definition sample_dom : Dom :=
  {| gallery := []; lightbox_hidden := true; body_overflow := "";
     lightboxImage := {| img_src := ""; img_alt := ""; img_loaded := false;
                         img_onload := false |};
     lightboxCaption := ""; prev_visibility := ""; next_visibility := "";
     loading_hidden := false |}.

Definition sample_manifest : Manifest := {| m_photos := Some sample_photos |}.

(** The sample catalogue loaded, viewer never opened. *)
Definition sample_loaded : State :=
  @session UTC.host sample_dom [] (Response true (Some sample_manifest)) [].

(** The sample catalogue with the viewer opened at [i]. *)
Definition sample_open (i : Z) : State :=
  @openLightbox UTC.host i sample_loaded.

(** The viewer at photo 2 with a touch recorded from [x0] to [x1]. *)
Definition sample_touch (x0 x1 : Z) : State :=
  with_touchEndX x1 (with_touchStartX x0 (sample_open 2)).

(** Three manifest entries, the middle one with a date no host reads. *)
Definition unreadable_entries : list Photo :=
  [ photo_of "x.jpg" "2023-01-01"; photo_of "y.jpg" "soon";
    photo_of "z.jpg" "2024-01-01" ].

(** Three manifest entries, the first two of the same date. *)
Definition same_day_entries : list Photo :=
  [ photo_of "entry0.jpg" "2024-01-01"; photo_of "entry1.jpg" "2024-01-01";
    photo_of "entry2.jpg" "2023-01-01" ].

Definition manifest_without_photos : Manifest := {| m_photos := None |}.

(** ** Vocabulary of the further properties *)

(** The two decimal digits of a number below 100, as [MM] and [DD] need. *)
Definition two_digit (z : Z) : string :=
  String (ascii_of_nat (48 + Z.to_nat (z / 10)))
    (String (ascii_of_nat (48 + Z.to_nat (z mod 10))) "").

(** The viewer's image, alternative text and caption are those of [photo]. *)
Definition shows_photo {host : DateHost} (s : State) (photo : Photo) : Prop :=
  img_src (lightboxImage (dom s)) = full_url photo /\
  img_alt (lightboxImage (dom s)) =
    ("Photo from " ++ formatDate (dateCaptured photo))%string /\
  lightboxCaption (dom s) = formatDate (dateCaptured photo).

(** The viewer shows the photo at [currentIndex], unless that is [-1]. *)
Definition content_valid {host : DateHost} (s : State) : Prop :=
  currentIndex s = -1 \/
  exists photo,
    array_get (photos s) (currentIndex s) = Some photo /\ shows_photo s photo.

(** The page is scroll-locked exactly while the lightbox is on screen, and
    then the index is not [-1]. *)
Definition lock_valid (s : State) : Prop :=
  (lightbox_hidden (dom s) = false <-> body_overflow (dom s) = "hidden") /\
  (lightbox_hidden (dom s) = false -> currentIndex s <> -1).

(** Every fetch started so far is for the full-size image of a photo of the
    catalogue. *)
Definition fetched_in_catalogue (s : State) : Prop :=
  Forall (fun url => exists photo, In photo (photos s) /\ url = full_url photo)
         (fetched s).

(** The outcomes of the fetch that take [init] into its [catch] block. *)
Definition load_failed (r : FetchResult) : bool :=
  match r with
  | Response true (Some _) => false
  | _ => true
  end.

(** [t] has the catalogue, the console and the loading indicator of [s],
    and its gallery differs from that of [s] in 'loaded' marks at most. *)
Definition same_page (s t : State) : Prop :=
  photos t = photos s /\
  gallery_as_built (gallery (dom t)) = gallery_as_built (gallery (dom s)) /\
  console t = console s /\
  loading_hidden (dom t) = loading_hidden (dom s).

(** * Properties *)

Section Navigation.

Context {host : DateHost}.

(** ** Array access *)

Lemma array_get_in_range {A} (a : list A) (i : Z) :
  0 <= i < length_of a -> exists x, array_get a i = Some x.
Proof.
  unfold array_get, length_of. intros Hi.
  destruct (Z.ltb_spec i 0) as [Hneg|_]; [lia|].
  destruct (nth_error a (Z.to_nat i)) as [x|] eqn:E; [now exists x|].
  apply nth_error_None in E. lia.
Qed.

Lemma array_get_outside {A} (a : list A) (i : Z) :
  i < 0 \/ length_of a <= i -> array_get a i = None.
Proof.
  unfold array_get, length_of. intros Hi.
  destruct (Z.ltb_spec i 0) as [Hneg|Hpos]; [reflexivity|].
  apply nth_error_None. lia.
Qed.

(** ** Preloading *)

Lemma preload_one_fetch (s : State) (k : Z) :
  preload_one s k = fetch_images (urls_at (photos s) [k]) s.
Proof.
  unfold preload_one, urls_at, fetch_images. simpl.
  destruct (Z.geb_spec k 0) as [Hk|Hk]; simpl.
  - destruct (Z.ltb_spec k (length_of (photos s))) as [Hn|Hn].
    + destruct (array_get_in_range (photos s) k) as [x ->]; [lia|]. reflexivity.
    + rewrite array_get_outside by lia. reflexivity.
  - rewrite array_get_outside by lia. reflexivity.
Qed.

Lemma fetch_images_app (u v : list string) (s : State) :
  fetch_images (u ++ v) s = fetch_images v (fetch_images u s).
Proof. unfold fetch_images. apply fold_left_app. Qed.

Lemma fetch_images_photos (u : list string) (s : State) :
  photos (fetch_images u s) = photos s.
Proof.
  revert s. induction u as [|x u IH]; intros s; [reflexivity|].
  unfold fetch_images in *. simpl. now rewrite IH.
Qed.

Lemma fetch_images_state (u : list string) (s : State) :
  fetch_images u s =
  {| photos := photos s; currentIndex := currentIndex s;
     touchStartX := touchStartX s; touchEndX := touchEndX s; dom := dom s;
     fetched := fetched s ++ u; console := console s |}.
Proof.
  revert s. induction u as [|x u IH]; intros s.
  - destruct s; simpl. now rewrite app_nil_r.
  - unfold fetch_images in *. simpl. rewrite IH. simpl.
    now rewrite <- app_assoc.
Qed.

Lemma urls_at_targets (l : list Photo) (i : Z) :
  urls_at l [i - 1; i + 1] = urls_at l (preload_targets i (length_of l)).
Proof.
  unfold urls_at, preload_targets. simpl.
  assert (forall k, (0 <=? k) && (k <? length_of l) = false ->
                    array_get l k = None) as Hout.
  { intros k Hk. apply array_get_outside.
    apply andb_false_iff in Hk as [Hk|Hk].
    - apply Z.leb_gt in Hk. lia.
    - apply Z.ltb_ge in Hk. lia. }
  destruct ((0 <=? i - 1) && (i - 1 <? length_of l)) eqn:E1;
    destruct ((0 <=? i + 1) && (i + 1 <? length_of l)) eqn:E2; simpl;
    rewrite ?(Hout _ E1), ?(Hout _ E2); reflexivity.
Qed.

(** [preloadAdjacent] only appends to the list of fetches, and what it
    appends are the urls of the photos at the preload targets. *)
Lemma preloadAdjacent_fetch (s : State) :
  preloadAdjacent s =
  fetch_images
    (urls_at (photos s) (preload_targets (currentIndex s) (size s))) s.
Proof.
  unfold preloadAdjacent, size. simpl.
  rewrite <- urls_at_targets.
  rewrite preload_one_fetch, preload_one_fetch, fetch_images_photos.
  rewrite <- fetch_images_app. f_equal.
  unfold urls_at. symmetry. apply (flat_map_app _ [_] [_]).
Qed.

Lemma urls_at_length (l : list Photo) (ks : list Z) :
  Forall (fun k => 0 <= k < length_of l) ks ->
  List.length (urls_at l ks) = List.length ks.
Proof.
  induction 1 as [|k ks Hk _ IH]; [reflexivity|].
  unfold urls_at in *. simpl.
  destruct (array_get_in_range l k Hk) as [x ->]. simpl. now rewrite IH.
Qed.

Lemma preload_targets_spec (i n k : Z) :
  In k (preload_targets i n) <-> (k = i - 1 \/ k = i + 1) /\ 0 <= k < n.
Proof.
  unfold preload_targets. rewrite filter_In. simpl.
  rewrite andb_true_iff, Z.leb_le, Z.ltb_lt. intuition lia.
Qed.

Lemma preload_targets_NoDup (i n : Z) : NoDup (preload_targets i n).
Proof.
  unfold preload_targets. apply NoDup_filter.
  constructor; [simpl; lia|]. constructor; [simpl; tauto|]. constructor.
Qed.

Lemma preload_targets_length (i n : Z) :
  (List.length (preload_targets i n) <= 2)%nat.
Proof. unfold preload_targets. apply (filter_length_le _ [i - 1; i + 1]). Qed.

Lemma urls_at_Forall2 (l : list Photo) (ks : list Z) :
  Forall (fun k => 0 <= k < length_of l) ks ->
  Forall2 (fun k url => exists photo,
             array_get l k = Some photo /\ url = full_url photo)
          ks (urls_at l ks).
Proof.
  induction 1 as [|k ks Hk _ IH]; [constructor|].
  unfold urls_at in *. simpl.
  destruct (array_get_in_range l k Hk) as [x Hx]. rewrite Hx. simpl.
  constructor; [now exists x | exact IH].
Qed.

(** C5.  On a catalogue of [n] photos with focal index [i], [preloadAdjacent]
    does nothing but start fetches, one per target and in this order, of the
    full-size urls of the photos at the targets; the targets are exactly the
    members of [{i-1, i+1}] inside [[0, n)]: never [i] itself, never an index
    further than 1 away, never more than two. *)
Theorem preloadAdjacent_neighbours (s : State) :
  let i := currentIndex s in
  let n := size s in
  let targets := preload_targets i n in
  let urls := urls_at (photos s) targets in
  preloadAdjacent s = fetch_images urls s /\
  fetched (preloadAdjacent s) = fetched s ++ urls /\
  Forall2 (fun k url => exists photo,
             array_get (photos s) k = Some photo /\ url = full_url photo)
          targets urls /\
  (forall k, In k targets <-> (k = i - 1 \/ k = i + 1) /\ 0 <= k < n) /\
  ~ In i targets /\
  (forall k, In k targets -> Z.abs (k - i) = 1) /\
  NoDup targets /\
  (List.length targets <= 2)%nat /\ (List.length urls <= 2)%nat.
Proof.
  intros i n targets urls.
  assert (Forall (fun k => 0 <= k < length_of (photos s)) targets) as Hin.
  { apply Forall_forall. intros k Hk.
    apply preload_targets_spec in Hk. exact (proj2 Hk). }
  assert (List.length urls = List.length targets) as Hlen
    by (apply urls_at_length; exact Hin).
  pose proof (preload_targets_length i n) as Hle.
  split; [apply preloadAdjacent_fetch|].
  split; [rewrite preloadAdjacent_fetch, fetch_images_state; reflexivity|].
  split; [apply urls_at_Forall2; exact Hin|].
  split; [intros k; apply preload_targets_spec|].
  split; [intros Hi; apply preload_targets_spec in Hi; lia|].
  split; [intros k Hk; apply preload_targets_spec in Hk; lia|].
  split; [apply preload_targets_NoDup|].
  split; [exact Hle | fold targets in Hle; lia].
Qed.

(** ** Next and previous *)

Lemma viewerState_OpenAt (s : State) (i : Z) :
  viewerState s = OpenAt i <-> currentIndex s = i /\ i <> -1.
Proof.
  unfold viewerState. destruct (Z.eqb_spec (currentIndex s) (-1)); split.
  - discriminate.
  - intros [? ?]. congruence.
  - intros [= <-]. now split.
  - intros [-> _]. reflexivity.
Qed.

Lemma viewerState_Closed (s : State) :
  viewerState s = Closed <-> currentIndex s = -1.
Proof.
  unfold viewerState. destruct (Z.eqb_spec (currentIndex s) (-1)); split;
    congruence.
Qed.

(** A step to index [j] from inside the viewer is [openLightbox j] with the
    viewer's visibility and the scroll lock left as they were. *)
Lemma step_as_open (s : State) (j : Z) :
  preloadAdjacent (updateLightboxContent (with_currentIndex j s)) =
  keep_shown s (openLightbox j s).
Proof.
  unfold openLightbox. rewrite !preloadAdjacent_fetch, !fetch_images_state.
  unfold size, keep_shown, updateLightboxContent. simpl.
  destruct (array_get (photos s) j); destruct s as [? ? ? ? [] ? ?];
    reflexivity.
Qed.

Lemma keep_shown_open (s : State) (j : Z) :
  shown s -> keep_shown s (openLightbox j s) = openLightbox j s.
Proof.
  intros [Hh Ho]. unfold openLightbox.
  rewrite !preloadAdjacent_fetch, !fetch_images_state.
  unfold size, keep_shown, updateLightboxContent. simpl. rewrite Hh, Ho.
  destruct (array_get (photos s) j); destruct s as [? ? ? ? [] ? ?];
    reflexivity.
Qed.

(** C1.  From [OpenAt i] with [i < size - 1], [nextPhoto] goes to
    [OpenAt (i + 1)] and does what [openLightbox (i + 1)] does to the content,
    the affordances and the preloads (it is that call with the viewer's
    visibility and the scroll lock kept, and the very same call when the
    viewer is on screen); at [i = size - 1] it changes nothing at all. *)
Theorem nextPhoto_transition (s : State) (i : Z) :
  viewerState s = OpenAt i ->
  0 <= i < size s ->
  (i < size s - 1 ->
     viewerState (nextPhoto s) = OpenAt (i + 1) /\
     nextPhoto s = keep_shown s (openLightbox (i + 1) s) /\
     (shown s -> nextPhoto s = openLightbox (i + 1) s)) /\
  (i = size s - 1 -> nextPhoto s = s).
Proof.
  intros Hv Hi. apply viewerState_OpenAt in Hv as [Hc _].
  unfold size in *. split.
  - intros Hlt.
    assert (nextPhoto s = keep_shown s (openLightbox (i + 1) s)) as E.
    { unfold nextPhoto. rewrite Hc.
      destruct (Z.ltb_spec i (length_of (photos s) - 1)); [|lia].
      apply step_as_open. }
    split; [|split].
    + apply viewerState_OpenAt. split; [|lia].
      rewrite E. unfold keep_shown, openLightbox.
      rewrite preloadAdjacent_fetch, fetch_images_state. simpl.
      unfold updateLightboxContent.
      destruct (array_get _ _); reflexivity.
    + exact E.
    + intros Hs. rewrite E. now apply keep_shown_open.
  - intros He. unfold nextPhoto. rewrite Hc.
    destruct (Z.ltb_spec i (length_of (photos s) - 1)); [lia|reflexivity].
Qed.

(** C2.  From [OpenAt i] with [i > 0], [prevPhoto] goes to [OpenAt (i - 1)],
    shows photo [i - 1] (image, alternative text, caption, affordances) and
    starts the preloads around [i - 1], as [openLightbox (i - 1)] does; at
    [i = 0] it changes nothing at all, the affordances included. *)
Theorem prevPhoto_transition (s : State) (i : Z) :
  viewerState s = OpenAt i ->
  0 <= i < size s ->
  (i > 0 ->
     viewerState (prevPhoto s) = OpenAt (i - 1) /\
     prevPhoto s = keep_shown s (openLightbox (i - 1) s) /\
     (exists photo,
        array_get (photos s) (i - 1) = Some photo /\
        lightboxImage (dom (prevPhoto s)) =
          {| img_src := full_url photo;
             img_alt := ("Photo from " ++ formatDate (dateCaptured photo))%string;
             img_loaded := false; img_onload := true |} /\
        lightboxCaption (dom (prevPhoto s)) = formatDate (dateCaptured photo)) /\
     fetched (prevPhoto s) =
       fetched s ++ urls_at (photos s) (preload_targets (i - 1) (size s))) /\
  (i = 0 -> prevPhoto s = s).
Proof.
  intros Hv Hi. apply viewerState_OpenAt in Hv as [Hc _].
  unfold size in *. split.
  - intros Hgt.
    assert (prevPhoto s =
            preloadAdjacent
              (updateLightboxContent (with_currentIndex (i - 1) s))) as E.
    { unfold prevPhoto. rewrite Hc.
      destruct (Z.gtb_spec i 0); [reflexivity|lia]. }
    destruct (array_get_in_range (photos s) (i - 1)) as [photo Hp]; [lia|].
    assert (updateLightboxContent (with_currentIndex (i - 1) s) =
            with_dom
              (fun d =>
                 set_nav (if i - 1 >? 0 then "visible" else "hidden")
                   (if i - 1 <? length_of (photos s) - 1
                    then "visible" else "hidden")
                   (set_lightboxCaption (formatDate (dateCaptured photo))
                      (set_lightboxImage
                         {| img_src := full_url photo;
                            img_alt := ("Photo from " ++
                                        formatDate (dateCaptured photo))%string;
                            img_loaded := false; img_onload := true |} d)))
              (with_currentIndex (i - 1) s)) as U.
    { unfold updateLightboxContent. simpl. rewrite Hp. reflexivity. }
    repeat split.
    + apply viewerState_OpenAt. split; [|lia].
      rewrite E, preloadAdjacent_fetch, fetch_images_state, U. reflexivity.
    + rewrite E. apply step_as_open.
    + exists photo. split; [exact Hp|].
      rewrite E, preloadAdjacent_fetch, fetch_images_state, U. simpl.
      split; reflexivity.
    + rewrite E, preloadAdjacent_fetch, fetch_images_state, U. reflexivity.
  - intros He. unfold prevPhoto. rewrite Hc.
    destruct (Z.gtb_spec i 0); [lia|reflexivity].
Qed.

Lemma handleSwipe_cases (s : State) :
  handleSwipe s =
  if Z.abs (touchStartX s - touchEndX s) >? 50
  then if touchStartX s - touchEndX s >? 0 then nextPhoto s else prevPhoto s
  else s.
Proof. reflexivity. Qed.

(** C6.  With [diff = touchStartX - touchEndX]: beyond the threshold of 50,
    [handleSwipe] is [nextPhoto] when [diff] is positive and [prevPhoto] when it
    is negative; within the threshold it does nothing. *)
Theorem handleSwipe_threshold (s : State) :
  let diff := touchStartX s - touchEndX s in
  (Z.abs diff > 50 -> diff > 0 -> handleSwipe s = nextPhoto s) /\
  (Z.abs diff > 50 -> diff < 0 -> handleSwipe s = prevPhoto s) /\
  (Z.abs diff <= 50 -> handleSwipe s = s).
Proof.
  intros diff. rewrite handleSwipe_cases. fold diff.
  destruct (Z.gtb_spec (Z.abs diff) 50) as [Ha|Ha];
    destruct (Z.gtb_spec diff 0) as [Hd|Hd];
    repeat split; intros; try reflexivity; lia.
Qed.

(** A whole gesture: the two listeners record the positions and classify. *)
Lemma touch_gesture (s : State) (x0 x1 : Z) :
  run [TouchStart x0; TouchEnd x1] s =
  handleSwipe (with_touchEndX x1 (with_touchStartX x0 s)).
Proof. reflexivity. Qed.

(** ** What each function touches *)

Lemma nav_rule_computed (j n : Z) (d : Dom) :
  prev_visibility d = (if j >? 0 then "visible" else "hidden") ->
  next_visibility d = (if j <? n - 1 then "visible" else "hidden") ->
  nav_rule j n d.
Proof.
  unfold nav_rule. intros -> ->.
  destruct (Z.gtb_spec j 0); destruct (Z.ltb_spec j (n - 1));
    repeat split; intros; try reflexivity; try discriminate; lia.
Qed.

Lemma openLightbox_frame (s : State) (j : Z) :
  photos (openLightbox j s) = photos s /\
  currentIndex (openLightbox j s) = j /\
  gallery (dom (openLightbox j s)) = gallery (dom s) /\
  lightbox_hidden (dom (openLightbox j s)) = false /\
  body_overflow (dom (openLightbox j s)) = "hidden".
Proof.
  unfold openLightbox. rewrite preloadAdjacent_fetch, fetch_images_state.
  unfold updateLightboxContent. simpl.
  destruct (array_get (photos s) j); simpl; repeat split; reflexivity.
Qed.

Lemma openLightbox_shows (s : State) (j : Z) (photo : Photo) :
  array_get (photos s) j = Some photo ->
  lightboxImage (dom (openLightbox j s)) =
    {| img_src := full_url photo;
       img_alt := ("Photo from " ++ formatDate (dateCaptured photo))%string;
       img_loaded := false; img_onload := true |} /\
  lightboxCaption (dom (openLightbox j s)) = formatDate (dateCaptured photo) /\
  nav_rule j (size s) (dom (openLightbox j s)).
Proof.
  intros Hp. unfold openLightbox.
  rewrite preloadAdjacent_fetch, fetch_images_state.
  unfold updateLightboxContent. simpl. rewrite Hp. simpl.
  split; [reflexivity|]. split; [reflexivity|].
  apply nav_rule_computed; reflexivity.
Qed.

Lemma openLightbox_fetched (s : State) (j : Z) :
  fetched (openLightbox j s) =
  fetched s ++ urls_at (photos s) (preload_targets j (size s)).
Proof.
  unfold openLightbox. rewrite preloadAdjacent_fetch, fetch_images_state.
  unfold size, updateLightboxContent. simpl.
  destruct (array_get (photos s) j); reflexivity.
Qed.

Lemma nextPhoto_cases (s : State) :
  (length_of (photos s) - 1 <= currentIndex s /\ nextPhoto s = s) \/
  (currentIndex s < length_of (photos s) - 1 /\
   nextPhoto s = keep_shown s (openLightbox (currentIndex s + 1) s)).
Proof.
  unfold nextPhoto.
  destruct (Z.ltb_spec (currentIndex s) (length_of (photos s) - 1)).
  - right. split; [assumption | apply step_as_open].
  - left. split; [assumption | reflexivity].
Qed.

Lemma prevPhoto_cases (s : State) :
  (currentIndex s <= 0 /\ prevPhoto s = s) \/
  (currentIndex s > 0 /\
   prevPhoto s = keep_shown s (openLightbox (currentIndex s - 1) s)).
Proof.
  unfold prevPhoto. destruct (Z.gtb_spec (currentIndex s) 0).
  - right. split; [lia | apply step_as_open].
  - left. split; [assumption | reflexivity].
Qed.

(** C10.  With a non-empty catalogue and [currentIndex = -1], [nextPhoto]
    is not a no-op: it sets the index to 0 and puts photo 0 into the viewer,
    whether the lightbox is hidden or not, and leaves it hidden if it was.
    The document's keydown listener returns before calling it while the
    lightbox is hidden; the click listener of the next control and the swipe
    handler call it unguarded. *)
Theorem nextPhoto_from_Closed (s : State) :
  viewerState s = Closed ->
  photos s <> [] ->
  viewerState (nextPhoto s) = OpenAt 0 /\
  nextPhoto s <> s /\
  (exists photo,
     array_get (photos s) 0 = Some photo /\
     lightboxImage (dom (nextPhoto s)) =
       {| img_src := full_url photo;
          img_alt := ("Photo from " ++ formatDate (dateCaptured photo))%string;
          img_loaded := false; img_onload := true |} /\
     lightboxCaption (dom (nextPhoto s)) = formatDate (dateCaptured photo)) /\
  lightbox_hidden (dom (nextPhoto s)) = lightbox_hidden (dom s) /\
  (lightbox_hidden (dom s) = true -> document_keydown "ArrowRight" s = s) /\
  (lightbox_hidden (dom s) = false ->
     document_keydown "ArrowRight" s = nextPhoto s) /\
  dispatch s NextClick = nextPhoto s /\
  (touchStartX s - touchEndX s > 50 -> handleSwipe s = nextPhoto s).
Proof.
  intros Hv Hne. apply viewerState_Closed in Hv.
  assert (0 < length_of (photos s)) as Hlen.
  { unfold length_of. destruct (photos s); [congruence | simpl; lia]. }
  destruct (nextPhoto_cases s) as [[Hge _]|[_ E]]; [lia|].
  rewrite Hv in E. simpl in E.
  destruct (array_get_in_range (photos s) 0) as [photo Hp]; [lia|].
  destruct (openLightbox_frame s 0) as (_ & Hc & _).
  destruct (openLightbox_shows s 0 photo Hp) as (Hi & Hcap & _).
  assert (currentIndex (nextPhoto s) = 0) as Hc' by (rewrite E; exact Hc).
  split; [apply viewerState_OpenAt; split; [exact Hc' | lia]|].
  split; [intros Habs; rewrite Habs in Hc'; lia|].
  split; [exists photo; rewrite E; simpl; rewrite Hi, Hcap; auto|].
  split; [rewrite E; reflexivity|].
  split; [intros Hh; unfold document_keydown; now rewrite Hh|].
  split; [intros Hh; unfold document_keydown; now rewrite Hh|].
  split; [reflexivity|].
  intros Hd. rewrite handleSwipe_cases.
  destruct (Z.gtb_spec (Z.abs (touchStartX s - touchEndX s)) 50); [|lia].
  destruct (Z.gtb_spec (touchStartX s - touchEndX s) 0); [reflexivity|lia].
Qed.

(** ** Closing *)

Lemma closeLightbox_state (t : State) :
  viewerState (closeLightbox t) = Closed /\
  lightbox_hidden (dom (closeLightbox t)) = true /\
  body_overflow (dom (closeLightbox t)) = "" /\
  img_loaded (lightboxImage (dom (closeLightbox t))) = false /\
  img_src (lightboxImage (dom (closeLightbox t))) =
    img_src (lightboxImage (dom t)) /\
  photos (closeLightbox t) = photos t /\
  gallery (dom (closeLightbox t)) = gallery (dom t) /\
  fetched (closeLightbox t) = fetched t.
Proof. repeat split; reflexivity. Qed.

(** C4, as the script has it.  For a valid [i], [openLightbox i] followed by
    [closeLightbox] ends in [Closed]; [closeLightbox], from any state, hides
    the viewer, gives the page its scrolling back (overflow reset to the empty
    string) and takes the loaded mark off the image, and it leaves the image
    element's [src] alone: after the close the element still references the
    full-size resource of photo [i]. *)
Theorem open_then_close (s : State) (i : Z) :
  0 <= i < size s ->
  viewerState (closeLightbox (openLightbox i s)) = Closed /\
  (forall t,
     viewerState (closeLightbox t) = Closed /\
     lightbox_hidden (dom (closeLightbox t)) = true /\
     body_overflow (dom (closeLightbox t)) = "" /\
     img_loaded (lightboxImage (dom (closeLightbox t))) = false /\
     img_src (lightboxImage (dom (closeLightbox t))) =
       img_src (lightboxImage (dom t))) /\
  (exists photo,
     array_get (photos s) i = Some photo /\
     holds_reference (openLightbox i s) (full_url photo) /\
     holds_reference (closeLightbox (openLightbox i s)) (full_url photo)).
Proof.
  intros Hi.
  split; [apply closeLightbox_state|].
  split; [intros t; repeat split; reflexivity|].
  destruct (array_get_in_range (photos s) i Hi) as [photo Hp].
  destruct (openLightbox_shows s i photo Hp) as (Himg & _ & _).
  exists photo. unfold holds_reference.
  split; [exact Hp|].
  destruct (closeLightbox_state (openLightbox i s)) as (_ & _ & _ & _ & E & _).
  rewrite E, Himg. split; reflexivity.
Qed.

(** ** Invariants *)

(** A thumbnail's load event marks that thumbnail and touches no other child
    of the gallery. *)
Lemma thumbnail_at_onload (n m : nat) (s : State) :
  thumbnail_at m
    (with_dom (fun d => set_gallery (thumb_onload n (gallery d)) d) s) =
  option_map (fun it => if Nat.eqb m n then thumb_add_loaded it else it)
             (thumbnail_at m s).
Proof.
  unfold thumbnail_at. simpl. generalize (gallery (dom s)) as g.
  intros g. revert n m. induction g as [|node g IH]; intros n m.
  - destruct n, m; reflexivity.
  - destruct n as [|k], m as [|m'].
    + destruct node; reflexivity.
    + destruct node; simpl;
        destruct (nth_error g m') as [[it'|h]|]; reflexivity.
    + destruct node; reflexivity.
    + simpl. apply IH.
Qed.

Lemma thumbnail_at_onload_index (n m : nat) (s : State) (it : GalleryItem) :
  thumbnail_at m
    (with_dom (fun d => set_gallery (thumb_onload n (gallery d)) d) s) = Some it ->
  exists it0, thumbnail_at m s = Some it0 /\ item_index it0 = item_index it.
Proof.
  rewrite thumbnail_at_onload.
  destruct (thumbnail_at m s) as [it0|]; [|discriminate].
  simpl. intros [= <-]. exists it0. split; [reflexivity|].
  destruct (Nat.eqb m n); reflexivity.
Qed.

Lemma consistent_thumb_load (n : nat) (s : State) :
  consistent s ->
  consistent (with_dom (fun d => set_gallery (thumb_onload n (gallery d)) d) s).
Proof.
  intros [Ht Hi]. split; [|exact Hi].
  intros m it E.
  apply thumbnail_at_onload_index in E as (it0 & E0 & <-).
  exact (Ht m it0 E0).
Qed.

Lemma consistent_ext (s t : State) :
  photos t = photos s ->
  gallery (dom t) = gallery (dom s) ->
  currentIndex t = currentIndex s ->
  prev_visibility (dom t) = prev_visibility (dom s) ->
  next_visibility (dom t) = next_visibility (dom s) ->
  consistent s -> consistent t.
Proof.
  unfold consistent, thumbnails_valid, index_valid, thumbnail_at, nav_rule, size.
  intros -> -> -> -> ->. tauto.
Qed.

Lemma consistent_open (s : State) (j : Z) :
  thumbnails_valid s -> 0 <= j < size s -> consistent (openLightbox j s).
Proof.
  intros Ht Hj.
  destruct (openLightbox_frame s j) as (Hp & Hc & Hg & _).
  destruct (array_get_in_range (photos s) j Hj) as [photo Hph].
  destruct (openLightbox_shows s j photo Hph) as (_ & _ & Hn).
  split.
  - unfold thumbnails_valid, thumbnail_at, size in *. rewrite Hp, Hg. exact Ht.
  - right. unfold size in *. rewrite Hp, Hc. split; assumption.
Qed.

Lemma consistent_close (s : State) :
  thumbnails_valid s -> consistent (closeLightbox s).
Proof.
  intros Ht. split; [exact Ht | left; reflexivity].
Qed.

Lemma consistent_next (s : State) : consistent s -> consistent (nextPhoto s).
Proof.
  intros Hs. destruct (nextPhoto_cases s) as [[_ ->]|[Hlt ->]]; [exact Hs|].
  apply (consistent_ext (openLightbox (currentIndex s + 1) s));
    try reflexivity.
  destruct Hs as [Ht [Hc|[Hc _]]]; apply consistent_open;
    try assumption; unfold size in *; lia.
Qed.

Lemma consistent_prev (s : State) : consistent s -> consistent (prevPhoto s).
Proof.
  intros Hs. destruct (prevPhoto_cases s) as [[_ ->]|[Hgt ->]]; [exact Hs|].
  apply (consistent_ext (openLightbox (currentIndex s - 1) s));
    try reflexivity.
  destruct Hs as [Ht [Hc|[Hc _]]]; apply consistent_open;
    try assumption; unfold size in *; lia.
Qed.

Lemma consistent_swipe (s : State) : consistent s -> consistent (handleSwipe s).
Proof.
  intros Hs. rewrite handleSwipe_cases.
  destruct (_ >? 50); [|exact Hs].
  destruct (_ >? 0); [now apply consistent_next | now apply consistent_prev].
Qed.

Lemma consistent_keydown (key : string) (s : State) :
  consistent s -> consistent (document_keydown key s).
Proof.
  intros Hs. unfold document_keydown.
  destruct (lightbox_hidden (dom s)); [exact Hs|].
  destruct (String.eqb key "Escape"); [apply consistent_close, Hs|].
  destruct (String.eqb key "ArrowLeft"); [now apply consistent_prev|].
  destruct (String.eqb key "ArrowRight"); [now apply consistent_next|].
  exact Hs.
Qed.

Lemma consistent_dispatch (s : State) (e : Event) :
  consistent s -> consistent (dispatch s e).
Proof.
  intros Hs. destruct e as [n|n key| | | |t|key|x|x| |m]; simpl.
  - destruct (thumbnail_at n s) as [it|] eqn:E; [|exact Hs].
    apply consistent_open; [apply Hs|].
    split; [lia | exact (proj1 Hs n it E)].
  - destruct (thumbnail_at n s) as [it|] eqn:E;
      apply consistent_keydown; [|exact Hs].
    unfold item_keydown. destruct (_ || _); [|exact Hs].
    apply consistent_open; [apply Hs|].
    split; [lia | exact (proj1 Hs n it E)].
  - apply consistent_close, Hs.
  - now apply consistent_prev.
  - now apply consistent_next.
  - destruct t; [apply consistent_close, Hs | exact Hs].
  - now apply consistent_keydown.
  - revert Hs. apply consistent_ext; reflexivity.
  - apply consistent_swipe. revert Hs. apply consistent_ext; reflexivity.
  - unfold image_onload. destruct (img_onload _); [|exact Hs].
    revert Hs. apply consistent_ext; reflexivity.
  - now apply consistent_thumb_load.
Qed.

Lemma consistent_run (events : list Event) (s : State) :
  consistent s -> consistent (run events s).
Proof.
  revert s. induction events as [|e events IH]; intros s Hs; [exact Hs|].
  apply IH, consistent_dispatch, Hs.
Qed.

Lemma never_opened_ext (d : Dom) (s t : State) :
  photos t = photos s ->
  gallery (dom t) = gallery (dom s) ->
  currentIndex t = currentIndex s ->
  fetched t = fetched s ->
  console t = console s ->
  (lightbox_hidden (dom s) = true -> lightbox_hidden (dom t) = true) ->
  never_opened d s -> never_opened d t.
Proof.
  unfold never_opened, thumbnail_at. intros -> -> -> -> -> Hh. intuition.
Qed.

Lemma never_opened_next (d : Dom) (s : State) :
  never_opened d s -> nextPhoto s = s.
Proof.
  intros (Hp & _ & Hc & _). unfold nextPhoto. now rewrite Hp, Hc.
Qed.

Lemma never_opened_prev (d : Dom) (s : State) :
  never_opened d s -> prevPhoto s = s.
Proof.
  intros (_ & _ & Hc & _). unfold prevPhoto. now rewrite Hc.
Qed.

Lemma never_opened_close (d : Dom) (s : State) :
  never_opened d s -> never_opened d (closeLightbox s).
Proof.
  intros (Hp & Ht & Hc & Hf & Hl & Hh).
  repeat split; simpl; auto.
Qed.

Lemma never_opened_keydown (d : Dom) (key : string) (s : State) :
  never_opened d s -> never_opened d (document_keydown key s).
Proof.
  intros Hs. unfold document_keydown.
  rewrite (never_opened_next d s Hs), (never_opened_prev d s Hs).
  destruct (lightbox_hidden (dom s)); [exact Hs|].
  destruct (String.eqb key "Escape"); [now apply never_opened_close|].
  destruct (String.eqb key "ArrowLeft"); [exact Hs|].
  destruct (String.eqb key "ArrowRight"); exact Hs.
Qed.

Lemma never_opened_dispatch (d : Dom) (s : State) (e : Event) :
  never_opened d s -> never_opened d (dispatch s e).
Proof.
  intros Hs. pose proof Hs as (_ & Ht & _).
  destruct e as [n|n key| | | |t|key|x|x| |m]; simpl.
  - now rewrite Ht.
  - rewrite Ht. now apply never_opened_keydown.
  - now apply never_opened_close.
  - now rewrite (never_opened_prev d s Hs).
  - now rewrite (never_opened_next d s Hs).
  - destruct t; [now apply never_opened_close | exact Hs].
  - now apply never_opened_keydown.
  - revert Hs. apply never_opened_ext; auto.
  - assert (never_opened d (with_touchEndX x s)) as Hs'
      by (revert Hs; apply never_opened_ext; auto).
    unfold handleTouchEnd. rewrite handleSwipe_cases.
    rewrite (never_opened_next d _ Hs'), (never_opened_prev d _ Hs').
    destruct (_ >? 50); [destruct (_ >? 0)|]; exact Hs'.
  - unfold image_onload. destruct (img_onload _); [|exact Hs].
    revert Hs. apply never_opened_ext; auto.
  - destruct Hs as (Hp & _ & Hc & Hf & Hl & Hh).
    repeat split; try assumption.
    intros k. rewrite thumbnail_at_onload, Ht. reflexivity.
Qed.

Lemma never_opened_run (d : Dom) (events : list Event) (s : State) :
  never_opened d s -> never_opened d (run events s).
Proof.
  revert s. induction events as [|e events IH]; intros s Hs; [exact Hs|].
  apply IH, never_opened_dispatch, Hs.
Qed.

Lemma never_opened_initial (d : Dom) : never_opened d (initial d).
Proof.
  repeat split; try reflexivity; simpl; auto.
  intros n. unfold thumbnail_at. simpl. now destruct n.
Qed.

End Navigation.

(** * Loading the manifest *)

Section Loading.

Context {host : DateHost}.

(** ** The sort *)

Lemma sort_insert_perm {A} (cmp : A -> A -> option Z) (x : A) (l : list A) :
  Permutation (x :: l) (sort_insert cmp x l).
Proof.
  induction l as [|y l IH]; simpl; [reflexivity|].
  destruct (SortCompare cmp x y >? 0); [|reflexivity].
  rewrite perm_swap. now constructor.
Qed.

Lemma Array_sort_perm {A} (cmp : A -> A -> option Z) (l : list A) :
  Permutation l (Array_sort cmp l).
Proof.
  induction l as [|x l IH]; simpl; [constructor|].
  rewrite <- sort_insert_perm. now constructor.
Qed.

(** On parseable dates the comparator is the difference of the times. *)
Lemma byDateDesc_dated (x y : Photo) :
  dated x -> dated y ->
  SortCompare byDateDesc x y = time_of y - time_of x.
Proof.
  unfold dated, SortCompare, byDateDesc, time_of.
  destruct (Date_value (dateCaptured x)), (Date_value (dateCaptured y));
    intros; congruence.
Qed.

Lemma sort_insert_sorted (x : Photo) (l : list Photo) :
  dated x -> Forall dated l ->
  StronglySorted (fun a b => time_of a >= time_of b) l ->
  StronglySorted (fun a b => time_of a >= time_of b) (sort_insert byDateDesc x l).
Proof.
  intros Hx Hl Hs. induction Hs as [|y l Hs IH Hy]; simpl.
  - repeat constructor.
  - inversion Hl as [|? ? Hdy Hdl]; subst.
    rewrite (byDateDesc_dated x y Hx Hdy).
    destruct (Z.gtb_spec (time_of y - time_of x) 0) as [Hgt|Hle].
    + constructor; [now apply IH|].
      rewrite <- sort_insert_perm. constructor; [lia | exact Hy].
    + constructor; [now constructor|].
      constructor; [lia|].
      eapply Forall_impl; [|exact Hy]. simpl. intros; lia.
Qed.

Lemma sort_insert_stable (t : Z) (x : Photo) (l : list Photo) :
  dated x -> Forall dated l ->
  filter (fun p => time_of p =? t) (sort_insert byDateDesc x l) =
  filter (fun p => time_of p =? t) (x :: l).
Proof.
  intros Hx Hl. induction Hl as [|y l Hy Hl IH]; [reflexivity|].
  cbn [sort_insert]. rewrite (byDateDesc_dated x y Hx Hy).
  destruct (Z.gtb_spec (time_of y - time_of x) 0) as [Hgt|Hle];
    [|reflexivity].
  cbn [filter] in *. rewrite IH.
  destruct (Z.eqb_spec (time_of x) t), (Z.eqb_spec (time_of y) t);
    try reflexivity; lia.
Qed.

Lemma Array_sort_dated (l : list Photo) :
  Forall dated l -> Forall dated (Array_sort byDateDesc l).
Proof.
  intros Hl. eapply Permutation_Forall; [apply Array_sort_perm | exact Hl].
Qed.

Lemma Array_sort_sorted (l : list Photo) :
  Forall dated l ->
  StronglySorted (fun a b => time_of a >= time_of b) (Array_sort byDateDesc l).
Proof.
  induction 1 as [|x l Hx Hl IH]; simpl; [constructor|].
  apply sort_insert_sorted; auto using Array_sort_dated.
Qed.

Lemma Array_sort_stable (t : Z) (l : list Photo) :
  Forall dated l ->
  filter (fun p => time_of p =? t) (Array_sort byDateDesc l) =
  filter (fun p => time_of p =? t) l.
Proof.
  induction 1 as [|x l Hx Hl IH]; [reflexivity|].
  cbn [Array_sort]. rewrite sort_insert_stable; auto using Array_sort_dated.
  cbn [filter]. now rewrite IH.
Qed.

Lemma init_photos (l : list Photo) (s : State) :
  photos (init (Response true (Some {| m_photos := Some l |})) s) =
  Array_sort byDateDesc l.
Proof.
  unfold init, renderGallery. simpl.
  destruct (length_of (Array_sort byDateDesc l) =? 0); reflexivity.
Qed.

Lemma StronglySorted_nth {A} (R : A -> A -> Prop) (l : list A) (i j : nat)
  (a b : A) :
  StronglySorted R l -> (i < j)%nat ->
  nth_error l i = Some a -> nth_error l j = Some b -> R a b.
Proof.
  intros Hs. revert i j. induction Hs as [|x l Hs IH Hx]; intros i j Hij Ha Hb.
  - destruct i; discriminate.
  - destruct j as [|j]; [lia|]. destruct i as [|i]; simpl in Ha, Hb.
    + injection Ha as <-. rewrite Forall_forall in Hx.
      apply Hx. eapply nth_error_In. exact Hb.
    + apply (IH i j); [lia | exact Ha | exact Hb].
Qed.

(** C7, as the script has it.  When the host can read the date of every
    manifest entry, the catalogue [init] builds is a rearrangement of the
    manifest's list, newest first, and entries of equal date keep their
    manifest order (for each date, the entries of that date appear in the
    catalogue as they do in the manifest).  The script does not check the
    dates, and with an unreadable one the order is not promised. *)
Theorem catalogue_sorted_stable (l : list Photo) (s : State) :
  Forall dated l ->
  let catalogue :=
    photos (init (Response true (Some {| m_photos := Some l |})) s) in
  Permutation l catalogue /\
  StronglySorted (fun a b => time_of a >= time_of b) catalogue /\
  newest_first catalogue /\
  (forall t, filter (fun p => time_of p =? t) catalogue =
             filter (fun p => time_of p =? t) l).
Proof.
  intros Hl catalogue. unfold catalogue. rewrite init_photos.
  pose proof (Array_sort_sorted l Hl) as Hs.
  split; [apply Array_sort_perm|].
  split; [exact Hs|].
  split.
  - intros i j a b ta tb Hij Ha Hb Hta Htb.
    pose proof (StronglySorted_nth _ _ i j a b Hs Hij Ha Hb) as Hab.
    unfold time_of in Hab. now rewrite Hta, Htb in Hab.
  - intros t. now apply Array_sort_stable.
Qed.

(** ** The gallery *)

Lemma nth_error_combine_seq {A} (l : list A) (a n i : nat) (x : A) :
  nth_error (combine (seq a (List.length l)) l) n = Some (i, x) ->
  i = (a + n)%nat /\ (n < List.length l)%nat.
Proof.
  revert a n. induction l as [|y l IH]; intros a n; simpl.
  - destruct n; discriminate.
  - destruct n as [|n]; simpl.
    + intros [= <- _]. lia.
    + intros E. apply IH in E. lia.
Qed.

Lemma renderGallery_valid (s : State) : thumbnails_valid (renderGallery s).
Proof.
  unfold thumbnails_valid, thumbnail_at, renderGallery, size, length_of.
  intros n it.
  destruct (Z.eqb_spec (Z.of_nat (List.length (photos s))) 0) as [E|E]; simpl.
  - destruct n as [|[|n]]; discriminate.
  - rewrite nth_error_map.
    destruct (nth_error (indexed (photos s)) n) as [[i x]|] eqn:En;
      [|discriminate].
    apply nth_error_combine_seq in En as [-> Hn].
    simpl. intros [= <-]. simpl. lia.
Qed.

Lemma init_consistent (d : Dom) (r : FetchResult) (s : State) :
  never_opened d s -> consistent (init r s).
Proof.
  intros (Hp & Ht & Hc & _).
  assert (thumbnails_valid (init r s)) as Hv.
  { destruct r as [|[|] [m|]].
    2: { unfold init.
         generalize (renderGallery_valid
           (with_photos
              (Array_sort byDateDesc
                 match m_photos m with Some l => l | None => [] end) s)).
         unfold thumbnails_valid, thumbnail_at, size. simpl. auto. }
    all: intros n it; unfold thumbnail_at; simpl;
      destruct n as [|[|n]]; discriminate. }
  split; [exact Hv|].
  left. destruct r as [|[|] [m|]]; try exact Hc.
  unfold init, renderGallery. simpl.
  destruct (length_of _ =? 0); exact Hc.
Qed.

Lemma init_empty (d : Dom) (m : Manifest) (s : State) :
  m_photos m = None \/ m_photos m = Some [] ->
  never_opened d s ->
  never_opened d (init (Response true (Some m)) s) /\
  gallery (dom (init (Response true (Some m)) s)) =
    [EmptyState "<p>No photos yet</p>"].
Proof.
  intros Hm (Hp & Ht & Hc & Hf & Hl & Hh).
  assert (init (Response true (Some m)) s =
          with_dom (set_loading_hidden true)
            (with_dom (set_gallery [EmptyState "<p>No photos yet</p>"])
               (with_photos [] s))) as E.
  { unfold init. destruct Hm as [-> | ->]; reflexivity. }
  rewrite E. split; [|reflexivity].
  repeat split; simpl; auto.
  intros n. unfold thumbnail_at. simpl. destruct n as [|[|n]]; reflexivity.
Qed.

(** Every state a session passes through. *)
Lemma session_consistent (d : Dom) (before : list Event) (r : FetchResult)
  (after : list Event) :
  consistent (run before (initial d)) /\
  consistent (session d before r after).
Proof.
  pose proof (never_opened_run d before _ (never_opened_initial d)) as H0.
  split.
  - destruct H0 as (Hp & Ht & Hc & _). split; [|left; exact Hc].
    intros n it. rewrite Ht. discriminate.
  - apply consistent_run. eapply init_consistent. exact H0.
Qed.

Lemma consistent_in_range (s : State) :
  consistent s ->
  viewerState s = Closed \/
  exists i, viewerState s = OpenAt i /\ 0 <= i < length_of (photos s).
Proof.
  intros [_ [Hc|[Hc _]]].
  - left. now apply viewerState_Closed.
  - right. exists (currentIndex s). split; [|exact Hc].
    apply viewerState_OpenAt. split; [reflexivity | lia].
Qed.

Lemma consistent_nav (s : State) (i : Z) :
  consistent s -> viewerState s = OpenAt i -> nav_rule i (size s) (dom s).
Proof.
  intros [_ Hc] Hv. apply viewerState_OpenAt in Hv as [<- Hne].
  destruct Hc as [Hc|[_ Hn]]; [contradiction | exact Hn].
Qed.

(** C8.  In every state of a session, before and after the manifest arrives
    and whatever events the page receives (thumbnail clicks and keys, the
    close, previous and next controls, background clicks, document keys,
    touches), the viewer state is [Closed] or [OpenAt i] with
    [0 <= i < photos.length]. *)
Theorem index_always_in_range (d : Dom) (before : list Event)
  (r : FetchResult) (after : list Event) :
  let in_range s :=
    viewerState s = Closed \/
    exists i, viewerState s = OpenAt i /\ 0 <= i < length_of (photos s) in
  in_range (run before (initial d)) /\
  in_range (session d before r after).
Proof.
  intros in_range.
  destruct (session_consistent d before r after) as [H0 H1].
  split; apply consistent_in_range; assumption.
Qed.

(** C3.  Each transition into [OpenAt] sets the pair of affordances by the
    rule, whatever they were before: [openLightbox i] for a valid [i],
    [nextPhoto] below the last index, [prevPhoto] above the first.  And in
    every state of a session that is [OpenAt i], previous is visible iff
    [i > 0] and next is visible iff [i < size - 1]. *)
Theorem nav_affordance_rule :
  (forall s i, 0 <= i < size s ->
     nav_rule i (size s) (dom (openLightbox i s))) /\
  (forall s i, viewerState s = OpenAt i -> 0 <= i < size s - 1 ->
     nav_rule (i + 1) (size s) (dom (nextPhoto s))) /\
  (forall s i, viewerState s = OpenAt i -> 0 < i < size s ->
     nav_rule (i - 1) (size s) (dom (prevPhoto s))) /\
  (forall d before r after i,
     let s := session d before r after in
     viewerState s = OpenAt i -> nav_rule i (size s) (dom s)).
Proof.
  assert (forall s i, 0 <= i < size s ->
            nav_rule i (size s) (dom (openLightbox i s))) as Hopen.
  { intros s i Hi.
    destruct (array_get_in_range (photos s) i Hi) as [photo Hp].
    apply (openLightbox_shows s i photo Hp). }
  split; [exact Hopen|]. split; [|split].
  - intros s i Hv Hi. apply viewerState_OpenAt in Hv as [Hc _].
    destruct (nextPhoto_cases s) as [[Hge _]|[_ ->]];
      [unfold size in *; lia|].
    rewrite Hc. apply (Hopen s (i + 1)). lia.
  - intros s i Hv Hi. apply viewerState_OpenAt in Hv as [Hc _].
    destruct (prevPhoto_cases s) as [[Hle _]|[_ ->]]; [lia|].
    rewrite Hc. apply (Hopen s (i - 1)). lia.
  - intros d before r after i s Hv.
    apply consistent_nav; [|exact Hv].
    apply session_consistent.
Qed.

(** C9.  A manifest without [photos], or with an empty list, loads without
    error into a catalogue of size 0; the gallery then holds the empty-state
    element and no thumbnail; and no later event opens the viewer: the state
    stays [Closed], nothing is fetched, and a lightbox the document had hidden
    stays hidden. *)
Theorem empty_manifest (d : Dom) (m : Manifest) (before after : list Event) :
  m_photos m = None \/ m_photos m = Some [] ->
  let loaded := init (Response true (Some m)) (run before (initial d)) in
  let s := run after loaded in
  photos loaded = [] /\ size loaded = 0 /\
  console loaded = [] /\
  gallery (dom loaded) = [EmptyState "<p>No photos yet</p>"] /\
  (forall n, thumbnail_at n loaded = None) /\
  (forall n, thumbnail_at n s = None) /\
  viewerState s = Closed /\
  fetched s = [] /\
  (lightbox_hidden d = true -> lightbox_hidden (dom s) = true).
Proof.
  intros Hm loaded s.
  pose proof (never_opened_run d before _ (never_opened_initial d)) as H0.
  destruct (init_empty d m _ Hm H0) as [H1 Hg]. fold loaded in H1, Hg.
  pose proof (never_opened_run d after _ H1) as H2. fold s in H2.
  destruct H1 as (Hp & Ht & _ & _ & Hl & _).
  destruct H2 as (_ & Ht' & Hc' & Hf' & _ & Hh').
  split; [exact Hp|].
  split; [unfold size; now rewrite Hp|].
  split; [exact Hl|]. split; [exact Hg|]. split; [exact Ht|].
  split; [exact Ht'|].
  split; [now apply viewerState_Closed|].
  split; assumption.
Qed.

End Loading.

(** * The properties on the sample data *)

Lemma sample_size (i : Z) : size (sample_open i) = 5.
Proof.
  unfold size, sample_open.
  rewrite (proj1 (@openLightbox_frame UTC.host sample_loaded i)).
  reflexivity.
Qed.

Lemma nextPhoto_transition_witness :
  (viewerState (@nextPhoto UTC.host (sample_open 2)) = OpenAt (2 + 1) /\
   @nextPhoto UTC.host (sample_open 2) =
     keep_shown (sample_open 2) (@openLightbox UTC.host (2 + 1) (sample_open 2)) /\
   (shown (sample_open 2) ->
    @nextPhoto UTC.host (sample_open 2) =
      @openLightbox UTC.host (2 + 1) (sample_open 2))) /\
  @nextPhoto UTC.host (sample_open 4) = sample_open 4.
Proof.
  split.
  - apply (@nextPhoto_transition UTC.host (sample_open 2) 2).
    + reflexivity.
    + rewrite sample_size. lia.
    + rewrite sample_size. lia.
  - apply (@nextPhoto_transition UTC.host (sample_open 4) 4).
    + reflexivity.
    + rewrite sample_size. lia.
    + rewrite sample_size. lia.
Defined.

Lemma prevPhoto_transition_witness :
  viewerState (@prevPhoto UTC.host (sample_open 2)) = OpenAt (2 - 1) /\
  @prevPhoto UTC.host (sample_open 0) = sample_open 0.
Proof.
  split.
  - apply (@prevPhoto_transition UTC.host (sample_open 2) 2).
    + reflexivity.
    + rewrite sample_size. lia.
    + lia.
  - apply (@prevPhoto_transition UTC.host (sample_open 0) 0).
    + reflexivity.
    + rewrite sample_size. lia.
    + reflexivity.
Defined.

Lemma nav_affordance_rule_witness :
  nav_rule 0 5 (dom (@openLightbox UTC.host 0 sample_loaded)) /\
  nav_rule (3 + 1) 5 (dom (@nextPhoto UTC.host (sample_open 3))) /\
  nav_rule (1 - 1) 5 (dom (@prevPhoto UTC.host (sample_open 1))) /\
  nav_rule 2 5
    (dom (@session UTC.host sample_dom [] (Response true (Some sample_manifest))
            [ThumbClick 1; NextClick])).
Proof.
  destruct (@nav_affordance_rule UTC.host) as (Hopen & Hnext & Hprev & Hinv).
  split; [|split; [|split]].
  - apply (Hopen sample_loaded 0). vm_compute. split; [discriminate|reflexivity].
  - apply (Hnext (sample_open 3) 3); [reflexivity|].
    rewrite sample_size. lia.
  - apply (Hprev (sample_open 1) 1); [reflexivity|].
    rewrite sample_size. lia.
  - apply (Hinv sample_dom [] (Response true (Some sample_manifest))
             [ThumbClick 1; NextClick] 2).
    reflexivity.
Defined.

(** C4 as stated fails: after [open(2)] and [close()] on the sample
    catalogue the image element still references [images/full/c.jpg]. *)
Lemma close_keeps_reference :
  0 <= 2 < size sample_loaded /\
  ~ @released_after_close UTC.host sample_loaded 2.
Proof.
  split.
  - vm_compute. split; [discriminate|reflexivity].
  - intros Hrel. apply (Hrel "images/full/c.jpg"); reflexivity.
Qed.

Lemma open_then_close_witness :
  viewerState (@closeLightbox (@openLightbox UTC.host 2 sample_loaded)) = Closed /\
  holds_reference (@closeLightbox (@openLightbox UTC.host 2 sample_loaded))
    "images/full/c.jpg".
Proof.
  destruct (@open_then_close UTC.host sample_loaded 2)
    as (Hclosed & _ & photo & Hp & _ & Href).
  - vm_compute. split; [discriminate|reflexivity].
  - split; [exact Hclosed|].
    vm_compute in Hp. injection Hp as <-. exact Href.
Defined.

(** C7 as stated fails: the manifest [2023-01-01, soon, 2024-01-01], whose
    middle date no host reads, is loaded in that very order, the 2023 entry
    ahead of the 2024 one. *)
Lemma unreadable_date_breaks_order :
  photos (@init UTC.host
            (Response true (Some {| m_photos := Some unreadable_entries |}))
            (initial sample_dom)) = unreadable_entries /\
  ~ @newest_first UTC.host
      (photos (@init UTC.host
                 (Response true (Some {| m_photos := Some unreadable_entries |}))
                 (initial sample_dom))).
Proof.
  split; [reflexivity|].
  intros Hsorted.
  specialize (Hsorted 0%nat 2%nat (photo_of "x.jpg" "2023-01-01")
                (photo_of "z.jpg" "2024-01-01")
                1672531200000 1704067200000).
  assert (1672531200000 >= 1704067200000) as Habs.
  { apply Hsorted; [lia | reflexivity | reflexivity | |];
      vm_compute; reflexivity. }
  lia.
Qed.

Lemma handleSwipe_threshold_witness :
  @handleSwipe UTC.host (sample_touch 200 140) =
    @nextPhoto UTC.host (sample_touch 200 140) /\
  @handleSwipe UTC.host (sample_touch 140 200) =
    @prevPhoto UTC.host (sample_touch 140 200) /\
  @handleSwipe UTC.host (sample_touch 100 120) = sample_touch 100 120.
Proof.
  destruct (@handleSwipe_threshold UTC.host (sample_touch 200 140))
    as (Hnext & _ & _).
  destruct (@handleSwipe_threshold UTC.host (sample_touch 140 200))
    as (_ & Hprev & _).
  destruct (@handleSwipe_threshold UTC.host (sample_touch 100 120))
    as (_ & _ & Hnone).
  split; [|split].
  - apply Hnext; vm_compute; reflexivity.
  - apply Hprev; vm_compute; reflexivity.
  - apply Hnone. vm_compute. discriminate.
Defined.

Lemma catalogue_sorted_stable_witness :
  let catalogue :=
    photos (@init UTC.host
              (Response true (Some {| m_photos := Some same_day_entries |}))
              (initial sample_dom)) in
  Permutation same_day_entries catalogue /\
  StronglySorted (fun a b => @time_of UTC.host a >= @time_of UTC.host b)
    catalogue /\
  @newest_first UTC.host catalogue /\
  (forall t, filter (fun p => @time_of UTC.host p =? t) catalogue =
             filter (fun p => @time_of UTC.host p =? t) same_day_entries).
Proof.
  apply (@catalogue_sorted_stable UTC.host same_day_entries (initial sample_dom)).
  unfold same_day_entries.
  repeat (apply Forall_cons; [vm_compute; discriminate|]).
  apply Forall_nil.
Defined.

Lemma empty_manifest_witness :
  let s := @session UTC.host sample_dom [NextClick]
             (Response true (Some manifest_without_photos))
             [NextClick; ThumbClick 0; TouchStart 200; TouchEnd 100] in
  photos s = [] /\ viewerState s = Closed /\ lightbox_hidden (dom s) = true.
Proof.
  destruct (@empty_manifest UTC.host sample_dom manifest_without_photos
              [NextClick]
              [NextClick; ThumbClick 0; TouchStart 200; TouchEnd 100])
    as (_ & _ & _ & _ & _ & _ & Hclosed & _ & Hhidden).
  - left. reflexivity.
  - split; [reflexivity|]. split; [exact Hclosed|].
    apply Hhidden. reflexivity.
Defined.

Lemma nextPhoto_from_Closed_witness :
  viewerState (@nextPhoto UTC.host sample_loaded) = OpenAt 0 /\
  lightbox_hidden (dom (@nextPhoto UTC.host sample_loaded)) = true /\
  @document_keydown UTC.host "ArrowRight" sample_loaded = sample_loaded.
Proof.
  destruct (@nextPhoto_from_Closed UTC.host sample_loaded)
    as (Hopen & _ & _ & Hhidden & Hkey & _).
  - reflexivity.
  - vm_compute. discriminate.
  - split; [exact Hopen|]. split; [exact Hhidden|].
    apply Hkey. reflexivity.
Defined.

(** ** The specification's scenarios *)

(** [open(2)] on five photos preloads the photos at 1 and 3 and nothing else. *)
Example preload_scenario :
  fetched (sample_open 2) = ["images/full/b.jpg"; "images/full/d.jpg"] /\
  preload_targets 2 5 = [1; 3].
Proof. split; reflexivity. Qed.

(** At the first and last photo one neighbour is preloaded. *)
Example preload_at_the_ends :
  fetched (sample_open 0) = ["images/full/b.jpg"] /\
  fetched (sample_open 4) = ["images/full/d.jpg"].
Proof. split; reflexivity. Qed.

(** The three swipe scenarios, from the viewer at photo 2. *)
Example swipe_scenarios :
  viewerState (@run UTC.host [TouchStart 200; TouchEnd 140] (sample_open 2))
    = OpenAt 3 /\
  viewerState (@run UTC.host [TouchStart 140; TouchEnd 200] (sample_open 2))
    = OpenAt 1 /\
  viewerState (@run UTC.host [TouchStart 100; TouchEnd 120] (sample_open 2))
    = OpenAt 2.
Proof. repeat split; reflexivity. Qed.

(** Equal dates keep the manifest's order. *)
Example same_day_scenario :
  photos (@init UTC.host
            (Response true (Some {| m_photos := Some same_day_entries |}))
            (initial sample_dom))
  = same_day_entries.
Proof. reflexivity. Qed.

(** A manifest in the wrong order is put newest first. *)
Example newest_first_scenario :
  map filename
    (photos (@init UTC.host
               (Response true (Some {| m_photos := Some (rev sample_photos) |}))
               (initial sample_dom)))
  = ["a.jpg"; "b.jpg"; "c.jpg"; "d.jpg"; "e.jpg"].
Proof. reflexivity. Qed.

(** Closing when closed changes nothing the viewer shows. *)
Example close_when_closed :
  viewerState (@closeLightbox sample_loaded) = Closed /\
  @closeLightbox sample_loaded = sample_loaded.
Proof. split; reflexivity. Qed.

(** A failed load shows the error element and logs. *)
Example failed_load :
  let s := @init UTC.host (Response false None) (initial sample_dom) in
  gallery (dom s) = [EmptyState "<p>Failed to load photos</p>"] /\
  console s = ["Error loading photos:"] /\
  loading_hidden (dom s) = true /\ photos s = [].
Proof. repeat split; reflexivity. Qed.

(** [openLightbox] itself takes any index; only its callers, the thumbnail
    listeners, keep it inside the catalogue. *)
Example open_does_not_validate :
  viewerState (sample_open 7) = OpenAt 7 /\
  lightboxImage (dom (sample_open 7)) = lightboxImage sample_dom.
Proof. split; reflexivity. Qed.

(** A date the host cannot read compares as NaN with every other entry, and
    the entries around it stay where they were. *)
Example unreadable_date_scenario :
  map dateCaptured
    (photos (@init UTC.host
               (Response true
                  (Some {| m_photos :=
                             Some [ photo_of "x.jpg" "2023-01-01";
                                    photo_of "y.jpg" "soon";
                                    photo_of "z.jpg" "2024-01-01" ] |}))
               (initial sample_dom)))
  = ["2023-01-01"; "soon"; "2024-01-01"].
Proof. reflexivity. Qed.

(** * Further properties of the script *)

Section Formatting.

Context {host : DateHost}.

Lemma padStart_two_digit (z : Z) :
  0 <= z < 100 -> padStart 2 "0" (String_of (Some z)) = two_digit z.
Proof.
  intros Hz.
  assert (forallb
            (fun n => String.eqb
                        (padStart 2 "0" (String_of (Some (Z.of_nat n))))
                        (two_digit (Z.of_nat n)))
            (seq 0 100) = true) as Hall by (vm_compute; reflexivity).
  rewrite forallb_forall in Hall.
  specialize (Hall (Z.to_nat z)).
  rewrite Z2Nat.id in Hall by lia.
  apply String.eqb_eq, Hall, in_seq. lia.
Qed.

(** X1.  [formatDate] of a readable date is the two-digit month, a slash, the
    two-digit day, a slash and the year in decimal; of an unreadable date it
    is [NaN/NaN/NaN]. *)
Theorem formatDate_shape (dateString : string) :
  (forall t, Date_value dateString = Some t ->
     0 <= getMonth t <= 11 -> 1 <= getDate t <= 31 ->
     formatDate dateString =
       (two_digit (getMonth t + 1) ++ "/" ++ two_digit (getDate t) ++ "/" ++
        String_of (Some (getFullYear t)))%string /\
     String.length (formatDate dateString) =
       (6 + String.length (String_of (Some (getFullYear t))))%nat) /\
  (Date_value dateString = None -> formatDate dateString = "NaN/NaN/NaN").
Proof.
  split.
  - intros t Ht Hm Hd.
    assert (formatDate dateString =
            (two_digit (getMonth t + 1) ++ "/" ++ two_digit (getDate t) ++ "/" ++
             String_of (Some (getFullYear t)))%string) as E.
    { unfold formatDate. rewrite Ht. cbn [option_map].
      rewrite !padStart_two_digit by lia. reflexivity. }
    split; [exact E|]. rewrite E. reflexivity.
  - intros Ht. unfold formatDate. rewrite Ht. reflexivity.
Qed.

End Formatting.

Section Pages.

Context {host : DateHost}.

(** ** The gallery *)

Lemma nth_error_seq_combine {A} (l : list A) (a n : nat) (x : A) :
  nth_error l n = Some x ->
  nth_error (combine (seq a (List.length l)) l) n = Some ((a + n)%nat, x).
Proof.
  revert a n. induction l as [|y l IH]; intros a n; simpl.
  - destruct n; discriminate.
  - destruct n as [|n]; simpl.
    + intros [= ->]. now rewrite Nat.add_0_r.
    + intros E. rewrite (IH (S a) n E). f_equal. f_equal. lia.
Qed.

Lemma renderGallery_nth (s : State) (n : nat) (photo : Photo) :
  nth_error (photos s) n = Some photo ->
  nth_error (gallery (dom (renderGallery s))) n =
    Some (Item (createGalleryItem photo n)).
Proof.
  intros Hn. unfold renderGallery, length_of.
  destruct (Z.eqb_spec (Z.of_nat (List.length (photos s))) 0) as [E|E].
  { destruct (photos s); [destruct n; discriminate | simpl in E; lia]. }
  simpl. rewrite nth_error_map. unfold indexed.
  rewrite (nth_error_seq_combine (photos s) 0 n photo Hn). reflexivity.
Qed.

(** X2.  [renderGallery] replaces whatever the gallery held.  On an empty
    catalogue it leaves the single empty-state element; otherwise one
    thumbnail per photo, in catalogue order, the one at position [n] built by
    [createGalleryItem] from photo [n] with index [n] (so its listeners open
    [n], and its image is that photo's thumbnail). *)
Theorem renderGallery_thumbnails (s : State) :
  (photos s = [] ->
     gallery (dom (renderGallery s)) = [EmptyState "<p>No photos yet</p>"]) /\
  (photos s <> [] ->
     List.length (gallery (dom (renderGallery s))) = List.length (photos s) /\
     forall n photo,
       nth_error (photos s) n = Some photo ->
       nth_error (gallery (dom (renderGallery s))) n =
         Some (Item (createGalleryItem photo n)) /\
       thumbnail_at n (renderGallery s) = Some (createGalleryItem photo n)) /\
  (forall g, renderGallery (with_dom (set_gallery g) s) = renderGallery s) /\
  photos (renderGallery s) = photos s.
Proof.
  split; [|split; [|split]].
  - intros E. unfold renderGallery. rewrite E. reflexivity.
  - intros Hne. unfold renderGallery, length_of.
    destruct (Z.eqb_spec (Z.of_nat (List.length (photos s))) 0) as [E|E].
    { destruct (photos s); [congruence | simpl in E; lia]. }
    simpl. split.
    + unfold indexed. rewrite length_map, length_combine, length_seq.
      apply Nat.min_id.
    + intros n photo Hn.
      pose proof (renderGallery_nth s n photo Hn) as Hth.
      unfold renderGallery, length_of in Hth.
      destruct (Z.eqb_spec (Z.of_nat (List.length (photos s))) 0) as [E'|_];
        [contradiction|].
      simpl in Hth. split; [exact Hth|].
      unfold thumbnail_at. simpl. now rewrite Hth.
  - intros g. unfold renderGallery. simpl.
    destruct (length_of (photos s) =? 0); reflexivity.
  - unfold renderGallery. destruct (length_of (photos s) =? 0); reflexivity.
Qed.

(** ** What events leave alone *)

Lemma gallery_as_built_onload (n : nat) (g : list GalleryNode) :
  gallery_as_built (thumb_onload n g) = gallery_as_built g.
Proof.
  revert n. induction g as [|node g IH]; intros n; [reflexivity|].
  destruct n as [|k].
  - destruct node; reflexivity.
  - simpl. f_equal. apply IH.
Qed.

(** Galleries that differ in 'loaded' marks only have the same thumbnails at
    the same places, marks apart. *)
Lemma thumbnail_at_as_built (s t : State) (m : nat) :
  gallery_as_built (gallery (dom t)) = gallery_as_built (gallery (dom s)) ->
  option_map thumb_as_built (thumbnail_at m t) =
  option_map thumb_as_built (thumbnail_at m s).
Proof.
  intros E. apply (f_equal (fun g => nth_error g m)) in E.
  unfold gallery_as_built in E. rewrite !nth_error_map in E.
  unfold thumbnail_at.
  destruct (nth_error (gallery (dom t)) m) as [[a|h]|];
    destruct (nth_error (gallery (dom s)) m) as [[b|h']|];
    simpl in *; congruence.
Qed.

Lemma same_page_refl (s : State) : same_page s s.
Proof. repeat split. Qed.

Lemma same_page_trans (s t u : State) :
  same_page s t -> same_page t u -> same_page s u.
Proof.
  unfold same_page. intros (A1 & A2 & A3 & A4) (B1 & B2 & B3 & B4).
  repeat split; congruence.
Qed.

Lemma same_page_open (s : State) (j : Z) : same_page s (openLightbox j s).
Proof.
  unfold openLightbox. rewrite preloadAdjacent_fetch, fetch_images_state.
  unfold updateLightboxContent. simpl.
  destruct (array_get (photos s) j); repeat split; reflexivity.
Qed.

Lemma same_page_keep (s0 s t : State) :
  same_page s t -> same_page s (keep_shown s0 t).
Proof. intros H. exact H. Qed.

Lemma same_page_next (s : State) : same_page s (nextPhoto s).
Proof.
  destruct (nextPhoto_cases s) as [[_ ->]|[_ ->]];
    [apply same_page_refl | apply same_page_keep, same_page_open].
Qed.

Lemma same_page_prev (s : State) : same_page s (prevPhoto s).
Proof.
  destruct (prevPhoto_cases s) as [[_ ->]|[_ ->]];
    [apply same_page_refl | apply same_page_keep, same_page_open].
Qed.

Lemma same_page_close (s : State) : same_page s (closeLightbox s).
Proof. repeat split. Qed.

Lemma same_page_keydown (key : string) (s : State) :
  same_page s (document_keydown key s).
Proof.
  unfold document_keydown.
  destruct (lightbox_hidden (dom s)); [apply same_page_refl|].
  destruct (String.eqb key "Escape"); [apply same_page_close|].
  destruct (String.eqb key "ArrowLeft"); [apply same_page_prev|].
  destruct (String.eqb key "ArrowRight"); [apply same_page_next|].
  apply same_page_refl.
Qed.

Lemma same_page_swipe (s : State) : same_page s (handleSwipe s).
Proof.
  rewrite handleSwipe_cases.
  destruct (_ >? 50); [|apply same_page_refl].
  destruct (_ >? 0); [apply same_page_next | apply same_page_prev].
Qed.

Lemma same_page_dispatch (s : State) (e : Event) : same_page s (dispatch s e).
Proof.
  destruct e as [n|n key| | | |t|key|x|x| |m]; simpl.
  - destruct (thumbnail_at n s); [apply same_page_open | apply same_page_refl].
  - destruct (thumbnail_at n s) as [it|]; [|apply same_page_keydown].
    eapply same_page_trans; [|apply same_page_keydown].
    unfold item_keydown.
    destruct (_ || _); [apply same_page_open | apply same_page_refl].
  - apply same_page_close.
  - apply same_page_prev.
  - apply same_page_next.
  - destruct t; [apply same_page_close | apply same_page_refl].
  - apply same_page_keydown.
  - repeat split.
  - apply (same_page_trans _ (with_touchEndX x s)); [repeat split|].
    apply same_page_swipe.
  - unfold image_onload. destruct (img_onload _); repeat split.
  - repeat split. simpl. apply gallery_as_built_onload.
Qed.

Lemma same_page_run (events : list Event) (s : State) :
  same_page s (run events s).
Proof.
  revert s. induction events as [|e events IH]; intros s;
    [apply same_page_refl|].
  eapply same_page_trans; [apply same_page_dispatch | apply IH].
Qed.

(** X3.  No event changes the catalogue, the console or the loading
    indicator, and in the gallery events change nothing but the 'loaded'
    marks of thumbnails: marks apart, the gallery stays as [init] left it,
    with the same children in the same order.  The load event of a
    thumbnail's image sets that thumbnail's mark and no other. *)
Theorem events_keep_page (events : list Event) (s : State) :
  photos (run events s) = photos s /\
  gallery_as_built (gallery (dom (run events s))) =
    gallery_as_built (gallery (dom s)) /\
  console (run events s) = console s /\
  loading_hidden (dom (run events s)) = loading_hidden (dom s) /\
  (forall n m,
     thumbnail_at m (dispatch s (ThumbLoad n)) =
     option_map (fun it => if Nat.eqb m n then thumb_add_loaded it else it)
                (thumbnail_at m s)).
Proof.
  destruct (same_page_run events s) as (Hp & Hg & Hc & Hl).
  repeat split; try assumption.
  intros n m. apply thumbnail_at_onload.
Qed.

End Pages.

(** ** Carrying a property through a session *)

Section Preservation.

Context {host : DateHost}.

Variable Q : State -> Prop.

Hypothesis Q_open : forall s j,
  consistent s -> Q s -> 0 <= j < size s -> Q (openLightbox j s).
Hypothesis Q_step : forall s j,
  consistent s -> Q s -> 0 <= j < size s ->
  Q (keep_shown s (openLightbox j s)).
Hypothesis Q_close : forall s, Q s -> Q (closeLightbox s).
Hypothesis Q_touchStart : forall s x, Q s -> Q (with_touchStartX x s).
Hypothesis Q_touchEnd : forall s x, Q s -> Q (with_touchEndX x s).
Hypothesis Q_loaded : forall s,
  Q s ->
  Q (with_dom (fun d => set_lightboxImage (add_loaded (lightboxImage d)) d) s).
Hypothesis Q_thumbLoaded : forall s n,
  Q s ->
  Q (with_dom (fun d => set_gallery (thumb_onload n (gallery d)) d) s).

Lemma kept_by_next (s : State) : consistent s -> Q s -> Q (nextPhoto s).
Proof.
  intros Hs Hq. destruct (nextPhoto_cases s) as [[_ ->]|[Hlt ->]]; [exact Hq|].
  apply Q_step; [exact Hs | exact Hq |].
  destruct Hs as [_ [Hc|[Hc _]]]; unfold size in *; lia.
Qed.

Lemma kept_by_prev (s : State) : consistent s -> Q s -> Q (prevPhoto s).
Proof.
  intros Hs Hq. destruct (prevPhoto_cases s) as [[_ ->]|[Hgt ->]]; [exact Hq|].
  apply Q_step; [exact Hs | exact Hq |].
  destruct Hs as [_ [Hc|[Hc _]]]; unfold size in *; lia.
Qed.

Lemma kept_by_keydown (key : string) (s : State) :
  consistent s -> Q s -> Q (document_keydown key s).
Proof.
  intros Hs Hq. unfold document_keydown.
  destruct (lightbox_hidden (dom s)); [exact Hq|].
  destruct (String.eqb key "Escape"); [now apply Q_close|].
  destruct (String.eqb key "ArrowLeft"); [now apply kept_by_prev|].
  destruct (String.eqb key "ArrowRight"); [now apply kept_by_next|].
  exact Hq.
Qed.

Lemma kept_by_dispatch (s : State) (e : Event) :
  consistent s -> Q s -> Q (dispatch s e).
Proof.
  intros Hs Hq. destruct e as [n|n key| | | |t|key|x|x| |m]; simpl.
  - destruct (thumbnail_at n s) as [it|] eqn:E; [|exact Hq].
    apply Q_open; [exact Hs | exact Hq |].
    split; [lia | exact (proj1 Hs n it E)].
  - destruct (thumbnail_at n s) as [it|] eqn:E;
      [|now apply kept_by_keydown].
    unfold item_keydown. destruct (_ || _); [|now apply kept_by_keydown].
    assert (0 <= Z.of_nat (item_index it) < size s) as Hi
      by (split; [lia | exact (proj1 Hs n it E)]).
    apply kept_by_keydown.
    + apply consistent_open; [apply Hs | exact Hi].
    + now apply Q_open.
  - now apply Q_close.
  - now apply kept_by_prev.
  - now apply kept_by_next.
  - destruct t; [now apply Q_close | exact Hq].
  - now apply kept_by_keydown.
  - now apply Q_touchStart.
  - unfold handleTouchEnd. rewrite handleSwipe_cases.
    assert (consistent (with_touchEndX x s)) as Hs'
      by (revert Hs; apply consistent_ext; reflexivity).
    assert (Q (with_touchEndX x s)) as Hq' by now apply Q_touchEnd.
    destruct (_ >? 50); [|exact Hq'].
    destruct (_ >? 0); [now apply kept_by_next | now apply kept_by_prev].
  - unfold image_onload. destruct (img_onload _); [|exact Hq].
    now apply Q_loaded.
  - now apply Q_thumbLoaded.
Qed.

Lemma kept_by_run (events : list Event) (s : State) :
  consistent s -> Q s -> Q (run events s).
Proof.
  revert s. induction events as [|e events IH]; intros s Hs Hq; [exact Hq|].
  apply IH; [now apply consistent_dispatch | now apply kept_by_dispatch].
Qed.

Lemma kept_by_session (d : Dom) (before : list Event) (r : FetchResult)
  (after : list Event) :
  Q (initial d) ->
  (forall s, never_opened d s -> Q s -> Q (init r s)) ->
  Q (session d before r after).
Proof.
  intros Q0 Qinit. unfold session.
  pose proof (proj1 (session_consistent d [] r [])) as H0. simpl in H0.
  pose proof (never_opened_run d before _ (never_opened_initial d)) as Hn.
  apply kept_by_run.
  - eapply init_consistent. exact Hn.
  - apply Qinit; [exact Hn|]. now apply kept_by_run.
Qed.

End Preservation.

Section Sessions.

Context {host : DateHost}.

Lemma init_keeps (r : FetchResult) (s : State) :
  currentIndex (init r s) = currentIndex s /\
  lightbox_hidden (dom (init r s)) = lightbox_hidden (dom s) /\
  body_overflow (dom (init r s)) = body_overflow (dom s) /\
  fetched (init r s) = fetched s /\
  loading_hidden (dom (init r s)) = true.
Proof.
  destruct r as [|[|] [m|]]; unfold init, renderGallery; simpl;
    try destruct (length_of _ =? 0); repeat split; reflexivity.
Qed.

(** ** The viewer shows the photo at the index *)

Lemma content_open (s : State) (j : Z) :
  0 <= j < size s -> content_valid (openLightbox j s).
Proof.
  intros Hj. destruct (array_get_in_range (photos s) j Hj) as [photo Hp].
  destruct (openLightbox_frame s j) as (Hph & Hc & _).
  destruct (openLightbox_shows s j photo Hp) as (Hi & Hcap & _).
  right. exists photo. rewrite Hph, Hc. split; [exact Hp|].
  unfold shows_photo. rewrite Hi, Hcap. repeat split.
Qed.

Lemma content_ext (s t : State) :
  photos t = photos s ->
  currentIndex t = currentIndex s ->
  img_src (lightboxImage (dom t)) = img_src (lightboxImage (dom s)) ->
  img_alt (lightboxImage (dom t)) = img_alt (lightboxImage (dom s)) ->
  lightboxCaption (dom t) = lightboxCaption (dom s) ->
  content_valid s -> content_valid t.
Proof.
  unfold content_valid, shows_photo. intros -> -> -> -> ->. tauto.
Qed.

Lemma content_session (d : Dom) (before : list Event) (r : FetchResult)
  (after : list Event) :
  content_valid (session d before r after).
Proof.
  apply (kept_by_session content_valid).
  - intros s j _ _ Hj. now apply content_open.
  - intros s j _ _ Hj.
    apply (content_ext (openLightbox j s)); try reflexivity.
    now apply content_open.
  - intros s _. left. reflexivity.
  - intros s x. apply content_ext; reflexivity.
  - intros s x. apply content_ext; reflexivity.
  - intros s. apply content_ext; reflexivity.
  - intros s n. apply content_ext; reflexivity.
  - left. reflexivity.
  - intros s (_ & _ & Hc & _) _. left.
    rewrite (proj1 (init_keeps r s)). exact Hc.
Qed.

(** X4.  In every state of a session that is [OpenAt i], the viewer's image
    references the full-size resource of photo [i] of the catalogue, and its
    alternative text and the caption carry that photo's formatted date. *)
Theorem viewer_shows_current_photo (d : Dom) (before : list Event)
  (r : FetchResult) (after : list Event) (i : Z) :
  let s := session d before r after in
  viewerState s = OpenAt i ->
  exists photo, array_get (photos s) i = Some photo /\ shows_photo s photo.
Proof.
  intros s Hv. apply viewerState_OpenAt in Hv as [Hc Hne].
  destruct (content_session d before r after) as [Hcl|Hshow].
  - fold s in Hcl. congruence.
  - fold s in Hshow. rewrite Hc in Hshow. exact Hshow.
Qed.

(** ** Scroll lock *)

Lemma lock_session (d : Dom) (before : list Event) (r : FetchResult)
  (after : list Event) :
  lightbox_hidden d = true ->
  body_overflow d <> "hidden" ->
  lock_valid (session d before r after).
Proof.
  intros Hh Ho. apply (kept_by_session lock_valid).
  - intros s j _ _ Hj.
    destruct (openLightbox_frame s j) as (_ & Hc & _ & Hhid & Hov).
    unfold lock_valid. rewrite Hc, Hhid, Hov. split; [tauto | intros _; lia].
  - intros s j _ [Hiff _] Hj.
    destruct (openLightbox_frame s j) as (_ & Hc & _).
    split; [exact Hiff|]. intros _. simpl. rewrite Hc. lia.
  - intros s _. split; simpl; [|discriminate].
    split; discriminate.
  - intros s x H. exact H.
  - intros s x H. exact H.
  - intros s H. exact H.
  - intros s n H. exact H.
  - split; simpl; rewrite Hh; [|discriminate].
    split; [discriminate | intros E; contradiction].
  - intros s _ [Hiff Himp].
    destruct (init_keeps r s) as (Hc & Hhid & Hov & _).
    unfold lock_valid. rewrite Hc, Hhid, Hov. now split.
Qed.

(** X5.  When the document starts with the lightbox hidden and the page not
    scroll-locked, then in every state of a session the page's overflow is
    [hidden] exactly while the lightbox is on screen, and a lightbox on
    screen always has an index of the catalogue. *)
Theorem scroll_lock_tracks_lightbox (d : Dom) (before : list Event)
  (r : FetchResult) (after : list Event) :
  lightbox_hidden d = true ->
  body_overflow d <> "hidden" ->
  let s := session d before r after in
  (lightbox_hidden (dom s) = false <-> body_overflow (dom s) = "hidden") /\
  (lightbox_hidden (dom s) = false ->
   exists i, viewerState s = OpenAt i /\ 0 <= i < size s).
Proof.
  intros Hh Ho s.
  destruct (lock_session d before r after Hh Ho) as [Hiff Himp].
  split; [exact Hiff|]. intros Hs.
  specialize (Himp Hs).
  destruct (proj2 (session_consistent d before r after)) as [_ [Hc|[Hc _]]].
  - contradiction.
  - exists (currentIndex s). split; [|exact Hc].
    apply viewerState_OpenAt. now split.
Qed.

(** ** Preloads *)

Lemma urls_at_in_catalogue (l : list Photo) (ks : list Z) :
  Forall (fun url => exists photo, In photo l /\ url = full_url photo)
         (urls_at l ks).
Proof.
  unfold urls_at. apply Forall_forall. intros url Hin.
  apply in_flat_map in Hin as (k & _ & Hk).
  unfold array_get in Hk.
  destruct (k <? 0); [contradiction|].
  destruct (nth_error l (Z.to_nat k)) as [photo|] eqn:E; [|contradiction].
  destruct Hk as [<-|[]]. exists photo. split; [|reflexivity].
  eapply nth_error_In. exact E.
Qed.

Lemma urls_at_length_le (l : list Photo) (ks : list Z) :
  (List.length (urls_at l ks) <= List.length ks)%nat.
Proof.
  unfold urls_at. induction ks as [|k ks IH]; simpl; [lia|].
  rewrite length_app. destruct (array_get l k); simpl; lia.
Qed.

Lemma fetched_open (s : State) (j : Z) :
  fetched_in_catalogue s -> fetched_in_catalogue (openLightbox j s).
Proof.
  unfold fetched_in_catalogue. intros H.
  rewrite openLightbox_fetched, (proj1 (openLightbox_frame s j)).
  apply Forall_app. split; [exact H | apply urls_at_in_catalogue].
Qed.

Lemma fetched_session (d : Dom) (before : list Event) (r : FetchResult)
  (after : list Event) :
  fetched_in_catalogue (session d before r after).
Proof.
  apply (kept_by_session fetched_in_catalogue).
  - intros t j _ Ht _. now apply fetched_open.
  - intros t j _ Ht _. apply (fetched_open t j) in Ht. exact Ht.
  - intros t Ht. exact Ht.
  - intros t x Ht. exact Ht.
  - intros t x Ht. exact Ht.
  - intros t Ht. exact Ht.
  - intros t n Ht. exact Ht.
  - constructor.
  - intros t (_ & _ & _ & Hf & _) _. unfold fetched_in_catalogue.
    rewrite (proj1 (proj2 (proj2 (proj2 (init_keeps r t))))), Hf.
    constructor.
Qed.

(** X6.  Every fetch a session has started is for the full-size image of a
    photo of the catalogue. *)
Theorem preloads_from_catalogue (d : Dom) (before : list Event)
  (r : FetchResult) (after : list Event) :
  let s := session d before r after in
  forall url, In url (fetched s) ->
    exists photo, In photo (photos s) /\ url = full_url photo.
Proof.
  intros s url Hin.
  pose proof (fetched_session d before r after) as H.
  unfold fetched_in_catalogue in H. rewrite Forall_forall in H.
  now apply H.
Qed.

End Sessions.

Section Operations.

Context {host : DateHost}.

(** ** How many fetches an event starts *)

Lemma open_fetch_bound (s : State) (j : Z) :
  exists extra,
    fetched (openLightbox j s) = fetched s ++ extra /\
    (List.length extra <= 2)%nat.
Proof.
  exists (urls_at (photos s) (preload_targets j (size s))).
  split; [apply openLightbox_fetched|].
  pose proof (urls_at_length_le (photos s) (preload_targets j (size s))).
  pose proof (preload_targets_length j (size s)). lia.
Qed.

Lemma no_fetch (s t : State) :
  fetched t = fetched s ->
  exists extra, fetched t = fetched s ++ extra /\ (List.length extra <= 2)%nat.
Proof. intros E. exists []. rewrite app_nil_r. split; [exact E | simpl; lia]. Qed.

Lemma next_fetch_bound (s : State) :
  exists extra,
    fetched (nextPhoto s) = fetched s ++ extra /\ (List.length extra <= 2)%nat.
Proof.
  destruct (nextPhoto_cases s) as [[_ ->]|[_ ->]]; [now apply no_fetch|].
  apply (open_fetch_bound s).
Qed.

Lemma prev_fetch_bound (s : State) :
  exists extra,
    fetched (prevPhoto s) = fetched s ++ extra /\ (List.length extra <= 2)%nat.
Proof.
  destruct (prevPhoto_cases s) as [[_ ->]|[_ ->]]; [now apply no_fetch|].
  apply (open_fetch_bound s).
Qed.

Lemma keydown_fetch_bound (key : string) (s : State) :
  exists extra,
    fetched (document_keydown key s) = fetched s ++ extra /\
    (List.length extra <= 2)%nat.
Proof.
  unfold document_keydown.
  destruct (lightbox_hidden (dom s)); [now apply no_fetch|].
  destruct (String.eqb key "Escape"); [now apply no_fetch|].
  destruct (String.eqb key "ArrowLeft"); [apply prev_fetch_bound|].
  destruct (String.eqb key "ArrowRight"); [apply next_fetch_bound|].
  now apply no_fetch.
Qed.

(** The keys that activate a thumbnail mean nothing to the document's
    listener. *)
Lemma activation_key_passes (key : string) (s : State) :
  String.eqb key "Enter" || String.eqb key " " = true ->
  document_keydown key s = s.
Proof.
  intros Hk. apply orb_true_iff in Hk as [Hk|Hk];
    apply String.eqb_eq in Hk; subst key; unfold document_keydown;
    destruct (lightbox_hidden (dom s)); reflexivity.
Qed.

Lemma dispatch_fetch_bound (s : State) (e : Event) :
  exists extra,
    fetched (dispatch s e) = fetched s ++ extra /\
    (List.length extra <= 2)%nat.
Proof.
  destruct e as [n|n key| | | |t|key|x|x| |m]; simpl.
  - destruct (thumbnail_at n s); [apply open_fetch_bound | now apply no_fetch].
  - destruct (thumbnail_at n s) as [it|]; [|apply keydown_fetch_bound].
    unfold item_keydown.
    destruct (String.eqb key "Enter" || String.eqb key " ") eqn:Hk;
      [|apply keydown_fetch_bound].
    rewrite (activation_key_passes key _ Hk). apply open_fetch_bound.
  - now apply no_fetch.
  - apply prev_fetch_bound.
  - apply next_fetch_bound.
  - destruct t; now apply no_fetch.
  - apply keydown_fetch_bound.
  - now apply no_fetch.
  - unfold handleTouchEnd. rewrite handleSwipe_cases.
    destruct (_ >? 50); [|now apply no_fetch].
    destruct (_ >? 0);
      [apply (next_fetch_bound (with_touchEndX x s))
      |apply (prev_fetch_bound (with_touchEndX x s))].
  - unfold image_onload. destruct (img_onload _); now apply no_fetch.
  - now apply no_fetch.
Qed.

(** X7.  Events only add to the fetches already started, and each event adds
    at most two. *)
Theorem events_fetch_bound (events : list Event) (s : State) :
  exists extra,
    fetched (run events s) = fetched s ++ extra /\
    (List.length extra <= 2 * List.length events)%nat.
Proof.
  revert s. induction events as [|e events IH]; intros s.
  - exists []. simpl. now rewrite app_nil_r.
  - destruct (dispatch_fetch_bound s e) as (x1 & E1 & L1).
    destruct (IH (dispatch s e)) as (x2 & E2 & L2).
    exists (x1 ++ x2). cbn [run fold_left] in *. unfold run in E2.
    rewrite E2, E1, <- app_assoc. split; [reflexivity|].
    rewrite length_app. cbn [List.length]. lia.
Qed.

(** ** Closing *)

(** X8.  Closing twice is closing once, and closing changes nothing exactly
    when the lightbox is hidden, the page's overflow is reset, the index is
    [-1] and the image carries no loaded mark. *)
Theorem closeLightbox_idempotent (s : State) :
  closeLightbox (closeLightbox s) = closeLightbox s /\
  (closeLightbox s = s <->
   lightbox_hidden (dom s) = true /\ body_overflow (dom s) = "" /\
   currentIndex s = -1 /\ img_loaded (lightboxImage (dom s)) = false).
Proof.
  split; [reflexivity|].
  destruct s as [p c a b [g h o [src alt ld onl] cap pv nv lh] f co].
  unfold closeLightbox. simpl. split.
  - intros E. injection E as E1 E2 E3 E4. repeat split; congruence.
  - intros (-> & -> & -> & ->). reflexivity.
Qed.

(** ** Opening outside the catalogue *)

(** X9.  [openLightbox] does not check its index.  On an index outside the
    catalogue it still takes the index, puts the lightbox on screen and locks
    the page, while image, caption and both affordances stay as they were; it
    still preloads the neighbours that are inside the catalogue. *)
Theorem openLightbox_outside (s : State) (j : Z) :
  j < 0 \/ size s <= j ->
  currentIndex (openLightbox j s) = j /\
  lightbox_hidden (dom (openLightbox j s)) = false /\
  body_overflow (dom (openLightbox j s)) = "hidden" /\
  lightboxImage (dom (openLightbox j s)) = lightboxImage (dom s) /\
  lightboxCaption (dom (openLightbox j s)) = lightboxCaption (dom s) /\
  prev_visibility (dom (openLightbox j s)) = prev_visibility (dom s) /\
  next_visibility (dom (openLightbox j s)) = next_visibility (dom s) /\
  fetched (openLightbox j s) =
    fetched s ++ urls_at (photos s) (preload_targets j (size s)).
Proof.
  intros Hj.
  assert (array_get (photos s) j = None) as Hn
    by (apply array_get_outside; exact Hj).
  split; [apply openLightbox_frame|].
  split; [apply openLightbox_frame|].
  split; [apply openLightbox_frame|].
  assert (dom (openLightbox j s) =
          set_body_overflow "hidden" (set_lightbox_hidden false (dom s)))
    as E.
  { unfold openLightbox. rewrite preloadAdjacent_fetch, fetch_images_state.
    unfold updateLightboxContent. simpl. rewrite Hn. reflexivity. }
  rewrite E. repeat split; try reflexivity. apply openLightbox_fetched.
Qed.

(** ** Keys *)

Lemma keydown_hidden (key : string) (s : State) :
  lightbox_hidden (dom s) = true -> document_keydown key s = s.
Proof. intros Hh. unfold document_keydown. now rewrite Hh. Qed.

(** X10.  While the lightbox is hidden no sequence of keys sent to the
    document changes anything; and whatever the lightbox, a key other than
    Escape, ArrowLeft and ArrowRight changes nothing. *)
Theorem keys_ignored (keys : list string) (s : State) :
  (lightbox_hidden (dom s) = true -> run (map DocumentKeydown keys) s = s) /\
  (forall key, key <> "Escape" -> key <> "ArrowLeft" -> key <> "ArrowRight" ->
     document_keydown key s = s).
Proof.
  split.
  - intros Hh. induction keys as [|key keys IH]; [reflexivity|].
    cbn [map run fold_left dispatch]. rewrite (keydown_hidden key s Hh).
    exact IH.
  - intros key H1 H2 H3. unfold document_keydown.
    apply String.eqb_neq in H1, H2, H3. rewrite H1, H2, H3.
    destruct (lightbox_hidden (dom s)); reflexivity.
Qed.

End Operations.

Section Journeys.

Context {host : DateHost}.

(** ** There and back *)

Lemma openLightbox_dom (s : State) (j : Z) (photo : Photo) :
  array_get (photos s) j = Some photo ->
  dom (openLightbox j s) =
  {| gallery := gallery (dom s);
     lightbox_hidden := false;
     body_overflow := "hidden";
     lightboxImage :=
       {| img_src := full_url photo;
          img_alt := ("Photo from " ++ formatDate (dateCaptured photo))%string;
          img_loaded := false; img_onload := true |};
     lightboxCaption := formatDate (dateCaptured photo);
     prev_visibility := if j >? 0 then "visible" else "hidden";
     next_visibility :=
       if j <? length_of (photos s) - 1 then "visible" else "hidden";
     loading_hidden := loading_hidden (dom s) |}.
Proof.
  intros Hp. unfold openLightbox.
  rewrite preloadAdjacent_fetch, fetch_images_state.
  unfold updateLightboxContent. simpl. rewrite Hp. reflexivity.
Qed.

(** A step to [j] from a state [u] that is a step away from [s]. *)
Lemma step_back (s u : State) (j : Z) :
  0 <= j < size s ->
  photos u = photos s ->
  gallery (dom u) = gallery (dom s) ->
  loading_hidden (dom u) = loading_hidden (dom s) ->
  lightbox_hidden (dom u) = lightbox_hidden (dom s) ->
  body_overflow (dom u) = body_overflow (dom s) ->
  currentIndex (keep_shown u (openLightbox j u)) = j /\
  dom (keep_shown u (openLightbox j u)) = dom (keep_shown s (openLightbox j s)) /\
  fetched (keep_shown u (openLightbox j u)) =
    fetched u ++ urls_at (photos s) (preload_targets j (size s)).
Proof.
  intros Hj Hp Hg Hl Hh Ho.
  destruct (array_get_in_range (photos s) j Hj) as [photo Hph].
  split; [apply openLightbox_frame|]. split.
  - unfold keep_shown. simpl.
    rewrite (openLightbox_dom s j photo Hph).
    rewrite (openLightbox_dom u j photo) by (rewrite Hp; exact Hph).
    rewrite Hp, Hg, Hl, Hh, Ho. reflexivity.
  - unfold keep_shown. simpl. rewrite openLightbox_fetched.
    unfold size. rewrite Hp. reflexivity.
Qed.

(** X11.  From photo [i], next followed by previous (when [i] is not the
    last) and previous followed by next (when [i] is not the first) come back
    to [i] with the page exactly as re-opening [i] in place would leave it;
    the preloads of both steps have been started. *)
Theorem there_and_back (s : State) (i : Z) :
  currentIndex s = i ->
  (0 <= i < size s - 1 ->
     currentIndex (prevPhoto (nextPhoto s)) = i /\
     dom (prevPhoto (nextPhoto s)) = dom (keep_shown s (openLightbox i s)) /\
     fetched (prevPhoto (nextPhoto s)) =
       (fetched s ++ urls_at (photos s) (preload_targets (i + 1) (size s)))
       ++ urls_at (photos s) (preload_targets i (size s))) /\
  (0 < i < size s ->
     currentIndex (nextPhoto (prevPhoto s)) = i /\
     dom (nextPhoto (prevPhoto s)) = dom (keep_shown s (openLightbox i s)) /\
     fetched (nextPhoto (prevPhoto s)) =
       (fetched s ++ urls_at (photos s) (preload_targets (i - 1) (size s)))
       ++ urls_at (photos s) (preload_targets i (size s))).
Proof.
  intros Hc. split; intros Hi.
  - destruct (nextPhoto_cases s) as [[Hge _]|[_ E]];
      [unfold size in *; lia|].
    rewrite Hc in E.
    destruct (openLightbox_frame s (i + 1)) as (Hp & Hci & Hg & _).
    destruct (same_page_open s (i + 1)) as (_ & _ & _ & Hl).
    assert (currentIndex (nextPhoto s) = i + 1) as Hc' by (rewrite E; exact Hci).
    destruct (prevPhoto_cases (nextPhoto s)) as [[Hle _]|[_ E']]; [lia|].
    rewrite E', Hc', Z.add_simpl_r.
    destruct (step_back s (nextPhoto s) i) as (R1 & R2 & R3);
      try (rewrite E; assumption); try (rewrite E; reflexivity);
      [unfold size in *; lia|].
    split; [exact R1|]. split; [exact R2|].
    rewrite R3. f_equal. rewrite E. apply (openLightbox_fetched s (i + 1)).
  - destruct (prevPhoto_cases s) as [[Hle _]|[_ E]]; [lia|].
    rewrite Hc in E.
    destruct (openLightbox_frame s (i - 1)) as (Hp & Hci & Hg & _).
    destruct (same_page_open s (i - 1)) as (_ & _ & _ & Hl).
    assert (currentIndex (prevPhoto s) = i - 1) as Hc' by (rewrite E; exact Hci).
    assert (photos (prevPhoto s) = photos s) as Hp' by (rewrite E; exact Hp).
    destruct (nextPhoto_cases (prevPhoto s)) as [[Hge _]|[_ E']];
      [rewrite Hp' in Hge; unfold size in *; lia|].
    rewrite E', Hc', Z.sub_simpl_r.
    destruct (step_back s (prevPhoto s) i) as (R1 & R2 & R3);
      try (rewrite E; assumption); try (rewrite E; reflexivity);
      [unfold size in *; lia|].
    split; [exact R1|]. split; [exact R2|].
    rewrite R3. f_equal. rewrite E. apply (openLightbox_fetched s (i - 1)).
Qed.

(** ** A failed load *)

Lemma init_failed (r : FetchResult) (s : State) :
  load_failed r = true ->
  init r s = with_dom (set_loading_hidden true) (init_catch s).
Proof.
  destruct r as [|[|] [m|]]; simpl; intros H; try reflexivity; discriminate.
Qed.

(** X12.  [init] hides the loading indicator whatever the fetch gave.  When
    the fetch fails, the response is not ok or its body is not JSON, the
    catalogue stays empty, the gallery holds the single error element, one
    message is logged, and afterwards no event opens the viewer, starts a
    fetch or finds a thumbnail. *)
Theorem failed_load_session (d : Dom) (before : list Event) (r : FetchResult)
  (after : list Event) :
  (forall r' s', loading_hidden (dom (init r' s')) = true) /\
  (load_failed r = true ->
   let loaded := init r (run before (initial d)) in
   let s := run after loaded in
   photos loaded = [] /\
   gallery (dom loaded) = [EmptyState "<p>Failed to load photos</p>"] /\
   console loaded = ["Error loading photos:"] /\
   viewerState s = Closed /\
   fetched s = [] /\
   (forall n, thumbnail_at n s = None)).
Proof.
  split; [intros r' s'; apply init_keeps|].
  intros Hf loaded s.
  pose proof (never_opened_run d before _ (never_opened_initial d))
    as (Hp & _ & _ & _ & Hcon & _).
  assert (photos loaded = []) as Hpl
    by (unfold loaded; rewrite (init_failed r _ Hf); exact Hp).
  assert (gallery (dom loaded) = [EmptyState "<p>Failed to load photos</p>"])
    as Hgl by (unfold loaded; rewrite (init_failed r _ Hf); reflexivity).
  assert (console loaded = ["Error loading photos:"]) as Hcl
    by (unfold loaded; rewrite (init_failed r _ Hf); simpl;
        rewrite Hcon; reflexivity).
  destruct (same_page_run after loaded) as (Hps & Hgs & _). fold s in Hps, Hgs.
  split; [exact Hpl|]. split; [exact Hgl|]. split; [exact Hcl|].
  split; [|split].
  - apply viewerState_Closed.
    pose proof (proj2 (session_consistent d before r after)) as Hcons.
    change (consistent s) in Hcons.
    destruct Hcons as [_ [Hc|[Hc _]]]; [exact Hc|].
    unfold size, length_of in Hc. rewrite Hps, Hpl in Hc. simpl in Hc. lia.
  - pose proof (fetched_session d before r after) as Hfc.
    change (fetched_in_catalogue s) in Hfc.
    unfold fetched_in_catalogue in Hfc. rewrite Hps, Hpl in Hfc.
    destruct (fetched s) as [|url rest]; [reflexivity|].
    inversion Hfc as [|? ? (photo & [] & _) _].
  - intros n.
    pose proof (thumbnail_at_as_built loaded s n Hgs) as Hth.
    assert (thumbnail_at n loaded = None) as Hnone
      by (unfold thumbnail_at; rewrite Hgl; destruct n as [|[|n]]; reflexivity).
    rewrite Hnone in Hth. destruct (thumbnail_at n s); [discriminate|].
    reflexivity.
Qed.

(** ** A manifest that is already in order *)

Lemma Array_sort_sorted_id (l : list Photo) :
  Forall dated l ->
  StronglySorted (fun a b => time_of a >= time_of b) l ->
  Array_sort byDateDesc l = l.
Proof.
  intros Hd Hs. induction Hs as [|x l Hs IH Hx]; [reflexivity|].
  inversion Hd as [|? ? Hdx Hdl]; subst.
  cbn [Array_sort]. rewrite (IH Hdl).
  destruct l as [|y l']; [reflexivity|].
  cbn [sort_insert].
  inversion Hdl as [|? ? Hdy _]; subst.
  inversion Hx as [|? ? Hxy _]; subst.
  rewrite (byDateDesc_dated x y Hdx Hdy).
  destruct (Z.gtb_spec (time_of y - time_of x) 0); [lia | reflexivity].
Qed.

(** X13.  A manifest of readable dates that is already newest-first becomes
    the catalogue unchanged; hence loading a catalogue again as a manifest
    gives the same catalogue. *)
Theorem sorted_manifest_kept (l : list Photo) (s s' : State) :
  Forall dated l ->
  let load l0 s0 :=
    photos (init (Response true (Some {| m_photos := Some l0 |})) s0) in
  (StronglySorted (fun a b => time_of a >= time_of b) l -> load l s = l) /\
  load (load l s) s' = load l s.
Proof.
  intros Hd load. unfold load. rewrite !init_photos. split.
  - intros Hs. now apply Array_sort_sorted_id.
  - apply Array_sort_sorted_id;
      [now apply Array_sort_dated | now apply Array_sort_sorted].
Qed.

(** ** Activating a thumbnail *)

Lemma session_gallery (d : Dom) (before : list Event) (r : FetchResult)
  (after : list Event) (n : nat) (photo : Photo) :
  nth_error (photos (session d before r after)) n = Some photo ->
  exists it,
    thumbnail_at n (session d before r after) = Some it /\
    thumb_as_built it = createGalleryItem photo n.
Proof.
  unfold session.
  set (s0 := run before (initial d)).
  destruct (same_page_run after (init r s0)) as (Hp & Hg & _).
  pose proof (thumbnail_at_as_built (init r s0) (run after (init r s0)) n Hg)
    as Hth.
  rewrite Hp. clear Hp Hg.
  assert (nth_error (photos (init r s0)) n = Some photo ->
          thumbnail_at n (init r s0) = Some (createGalleryItem photo n))
    as Hinit.
  { pose proof (never_opened_run d before _ (never_opened_initial d))
      as (Hp0 & _). fold s0 in Hp0.
    unfold thumbnail_at.
    destruct (load_failed r) eqn:Hf.
    - rewrite (init_failed r s0 Hf). simpl. rewrite Hp0.
      destruct n; discriminate.
    - destruct r as [|[|] [m|]]; try discriminate.
      set (X := with_photos
                  (Array_sort byDateDesc
                     match m_photos m with Some l => l | None => [] end) s0).
      change (init (Response true (Some m)) s0)
        with (with_dom (set_loading_hidden true) (renderGallery X)).
      change (nth_error (photos (renderGallery X)) n = Some photo ->
              match nth_error (gallery (dom (renderGallery X))) n with
              | Some (Item it) => Some it
              | _ => None
              end = Some (createGalleryItem photo n)).
      assert (photos (renderGallery X) = photos X) as ->
        by (unfold renderGallery; destruct (length_of (photos X) =? 0);
            reflexivity).
      intros Hn. now rewrite (renderGallery_nth X n photo Hn). }
  intros Hn. rewrite (Hinit Hn) in Hth.
  destruct (thumbnail_at n (run after (init r s0))) as [it|]; [|discriminate].
  exists it. split; [reflexivity|].
  cbn [option_map] in Hth.
  exact (f_equal (fun o => match o with
                           | Some x => x
                           | None => thumb_as_built it
                           end) Hth).
Qed.

(** X14.  At any time after the load, a click on the thumbnail at position
    [n] opens the viewer at photo [n] of the catalogue: the index is [n], the
    viewer shows that photo, the lightbox is on screen and the page locked.
    Enter or Space on the thumbnail does the same. *)
Theorem thumbnail_opens_its_photo (d : Dom) (before : list Event)
  (r : FetchResult) (after : list Event) (n : nat) (photo : Photo) :
  let s := session d before r after in
  nth_error (photos s) n = Some photo ->
  let t := dispatch s (ThumbClick n) in
  t = openLightbox (Z.of_nat n) s /\
  viewerState t = OpenAt (Z.of_nat n) /\
  shows_photo t photo /\
  lightbox_hidden (dom t) = false /\
  body_overflow (dom t) = "hidden" /\
  dispatch s (ThumbKeydown n "Enter") = t /\
  dispatch s (ThumbKeydown n " ") = t.
Proof.
  intros s Hn t.
  destruct (session_gallery d before r after n photo Hn) as (it & Hth & Hit).
  fold s in Hth.
  assert (item_index it = n) as Hidx
    by (apply (f_equal item_index) in Hit; exact Hit).
  assert (t = openLightbox (Z.of_nat n) s) as E
    by (unfold t; simpl; rewrite Hth, Hidx; reflexivity).
  assert (array_get (photos s) (Z.of_nat n) = Some photo) as Hget.
  { unfold array_get. destruct (Z.ltb_spec (Z.of_nat n) 0); [lia|].
    now rewrite Nat2Z.id. }
  destruct (openLightbox_frame s (Z.of_nat n)) as (_ & Hc & _ & Hh & Ho).
  destruct (openLightbox_shows s (Z.of_nat n) photo Hget) as (Hi & Hcap & _).
  split; [exact E|]. rewrite E.
  split; [apply viewerState_OpenAt; split; [exact Hc | lia]|].
  split; [unfold shows_photo; rewrite Hi, Hcap; repeat split|].
  split; [exact Hh|]. split; [exact Ho|].
  split; simpl; rewrite Hth, Hidx; apply activation_key_passes; reflexivity.
Qed.

End Journeys.

Section Repeats.

Context {host : DateHost}.

Lemma nextPhoto_index (s : State) :
  currentIndex (nextPhoto s) =
    (if currentIndex s <? size s - 1 then currentIndex s + 1 else currentIndex s)
  /\ size (nextPhoto s) = size s.
Proof.
  unfold size.
  destruct (nextPhoto_cases s) as [[Hge ->]|[Hlt ->]].
  - destruct (Z.ltb_spec (currentIndex s) (length_of (photos s) - 1));
      [lia | now split].
  - destruct (Z.ltb_spec (currentIndex s) (length_of (photos s) - 1));
      [|lia].
    destruct (openLightbox_frame s (currentIndex s + 1)) as (Hp & Hc & _).
    split; [exact Hc | simpl; now rewrite Hp].
Qed.

Lemma prevPhoto_index (s : State) :
  currentIndex (prevPhoto s) =
    (if currentIndex s >? 0 then currentIndex s - 1 else currentIndex s)
  /\ size (prevPhoto s) = size s.
Proof.
  unfold size.
  destruct (prevPhoto_cases s) as [[Hle ->]|[Hgt ->]].
  - destruct (Z.gtb_spec (currentIndex s) 0); [lia | now split].
  - destruct (Z.gtb_spec (currentIndex s) 0); [|lia].
    destruct (openLightbox_frame s (currentIndex s - 1)) as (Hp & Hc & _).
    split; [exact Hc | simpl; now rewrite Hp].
Qed.

(** X15.  Repeating a step saturates at the ends: [n] clicks on next from an
    index not beyond the last photo end at [min (index + n) (size - 1)], and
    [n] clicks on previous from a non-negative index end at
    [max (index - n) 0]. *)
Theorem navigation_saturates (n : nat) (s : State) :
  (currentIndex s <= size s - 1 ->
     currentIndex (run (repeat NextClick n) s) =
       Z.min (currentIndex s + Z.of_nat n) (size s - 1)) /\
  (0 <= currentIndex s ->
     currentIndex (run (repeat PrevClick n) s) =
       Z.max (currentIndex s - Z.of_nat n) 0).
Proof.
  split; revert s; induction n as [|n IH]; intros s Hi.
  - simpl. lia.
  - cbn [repeat run fold_left dispatch].
    destruct (nextPhoto_index s) as [Hc Hs].
    change (fold_left dispatch (repeat NextClick n) (nextPhoto s))
      with (run (repeat NextClick n) (nextPhoto s)).
    destruct (Z.ltb_spec (currentIndex s) (size s - 1));
      rewrite IH; rewrite Hc, Hs; lia.
  - simpl. lia.
  - cbn [repeat run fold_left dispatch].
    destruct (prevPhoto_index s) as [Hc Hs].
    change (fold_left dispatch (repeat PrevClick n) (prevPhoto s))
      with (run (repeat PrevClick n) (prevPhoto s)).
    destruct (Z.gtb_spec (currentIndex s) 0); rewrite IH; rewrite Hc; lia.
Qed.

End Repeats.

(** * The further properties on the sample data *)

Lemma formatDate_shape_witness :
  @formatDate UTC.host "2024-03-09" =
    (two_digit (2 + 1) ++ "/" ++ two_digit 9 ++ "/" ++ String_of (Some 2024))%string /\
  @formatDate UTC.host "soon" = "NaN/NaN/NaN".
Proof.
  destruct (@formatDate_shape UTC.host "2024-03-09") as [Hok _].
  destruct (@formatDate_shape UTC.host "soon") as [_ Hnan].
  split.
  - apply (Hok 1709942400000).
    + vm_compute. reflexivity.
    + vm_compute. split; discriminate.
    + vm_compute. split; discriminate.
  - apply Hnan. vm_compute. reflexivity.
Defined.

Lemma renderGallery_thumbnails_witness :
  List.length (gallery (dom (@renderGallery UTC.host sample_loaded))) = 5%nat /\
  @renderGallery UTC.host (@renderGallery UTC.host sample_loaded) =
    @renderGallery UTC.host sample_loaded.
Proof.
  destruct (@renderGallery_thumbnails UTC.host sample_loaded)
    as (_ & Hitems & Hagain & _).
  split.
  - apply Hitems. vm_compute. discriminate.
  - apply (Hagain (gallery (dom (@renderGallery UTC.host sample_loaded)))).
Defined.

Lemma viewer_shows_current_photo_witness :
  exists photo,
    array_get
      (photos (@session UTC.host sample_dom []
                 (Response true (Some sample_manifest))
                 [ThumbClick 1; NextClick])) 2 = Some photo /\
    @shows_photo UTC.host
      (@session UTC.host sample_dom [] (Response true (Some sample_manifest))
         [ThumbClick 1; NextClick]) photo.
Proof.
  apply (@viewer_shows_current_photo UTC.host sample_dom []
           (Response true (Some sample_manifest)) [ThumbClick 1; NextClick] 2).
  vm_compute. reflexivity.
Defined.

Lemma scroll_lock_tracks_lightbox_witness :
  let s := @session UTC.host sample_dom []
             (Response true (Some sample_manifest)) [ThumbClick 1] in
  (lightbox_hidden (dom s) = false <-> body_overflow (dom s) = "hidden") /\
  (lightbox_hidden (dom s) = false ->
   exists i, viewerState s = OpenAt i /\ 0 <= i < size s).
Proof.
  apply (@scroll_lock_tracks_lightbox UTC.host sample_dom []
           (Response true (Some sample_manifest)) [ThumbClick 1]).
  - reflexivity.
  - vm_compute. discriminate.
Defined.

Lemma preloads_from_catalogue_witness :
  exists photo,
    In photo
      (photos (@session UTC.host sample_dom []
                 (Response true (Some sample_manifest)) [ThumbClick 2])) /\
    "images/full/b.jpg" = full_url photo.
Proof.
  apply (@preloads_from_catalogue UTC.host sample_dom []
           (Response true (Some sample_manifest)) [ThumbClick 2]).
  vm_compute. left. reflexivity.
Defined.

Lemma closeLightbox_idempotent_witness :
  @closeLightbox sample_loaded = sample_loaded.
Proof.
  apply (closeLightbox_idempotent sample_loaded).
  vm_compute. repeat split; reflexivity.
Defined.

Lemma openLightbox_outside_witness :
  currentIndex (@openLightbox UTC.host 5 sample_loaded) = 5 /\
  lightbox_hidden (dom (@openLightbox UTC.host 5 sample_loaded)) = false /\
  lightboxImage (dom (@openLightbox UTC.host 5 sample_loaded)) =
    lightboxImage (dom sample_loaded).
Proof.
  destruct (@openLightbox_outside UTC.host sample_loaded 5)
    as (Hc & Hh & _ & Hi & _).
  - right. vm_compute. discriminate.
  - split; [exact Hc|]. split; [exact Hh | exact Hi].
Defined.

Lemma keys_ignored_witness :
  @run UTC.host (map DocumentKeydown ["ArrowRight"; "Escape"; "Enter"])
    sample_loaded = sample_loaded /\
  @document_keydown UTC.host "Tab" (sample_open 2) = sample_open 2.
Proof.
  destruct (@keys_ignored UTC.host ["ArrowRight"; "Escape"; "Enter"]
              sample_loaded) as [Hhidden _].
  destruct (@keys_ignored UTC.host [] (sample_open 2)) as [_ Hother].
  split.
  - apply Hhidden. reflexivity.
  - apply Hother; discriminate.
Defined.

Lemma there_and_back_witness :
  currentIndex (@prevPhoto UTC.host (@nextPhoto UTC.host (sample_open 2))) = 2 /\
  currentIndex (@nextPhoto UTC.host (@prevPhoto UTC.host (sample_open 2))) = 2.
Proof.
  destruct (@there_and_back UTC.host (sample_open 2) 2) as [Hnp Hpn].
  - reflexivity.
  - split.
    + apply Hnp. rewrite sample_size. lia.
    + apply Hpn. rewrite sample_size. lia.
Defined.

Lemma failed_load_session_witness :
  let s := @session UTC.host sample_dom [] NetworkError
             [NextClick; ThumbClick 0] in
  viewerState s = Closed /\ fetched s = [].
Proof.
  destruct (@failed_load_session UTC.host sample_dom [] NetworkError
              [NextClick; ThumbClick 0]) as [_ Hfail].
  destruct Hfail as (_ & _ & _ & Hclosed & Hfetched & _).
  - reflexivity.
  - split; [exact Hclosed | exact Hfetched].
Defined.

Lemma sorted_manifest_kept_witness :
  photos (@init UTC.host
            (Response true (Some {| m_photos := Some same_day_entries |}))
            (initial sample_dom)) = same_day_entries.
Proof.
  destruct (@sorted_manifest_kept UTC.host same_day_entries
              (initial sample_dom) (initial sample_dom)) as [Hkept _].
  - unfold same_day_entries.
    repeat (apply Forall_cons; [vm_compute; discriminate|]).
    apply Forall_nil.
  - apply Hkept. unfold same_day_entries.
    repeat (apply SSorted_cons;
            [|repeat (apply Forall_cons; [vm_compute; discriminate|]);
              apply Forall_nil]).
    apply SSorted_nil.
Defined.

Lemma thumbnail_opens_its_photo_witness :
  let s := @session UTC.host sample_dom []
             (Response true (Some sample_manifest)) [] in
  viewerState (@dispatch UTC.host s (ThumbClick 1)) = OpenAt 1 /\
  @dispatch UTC.host s (ThumbKeydown 1 "Enter") =
    @dispatch UTC.host s (ThumbClick 1).
Proof.
  destruct (@thumbnail_opens_its_photo UTC.host sample_dom []
              (Response true (Some sample_manifest)) [] 1%nat
              (photo_of "b.jpg" "2024-04-01"))
    as (_ & Hv & _ & _ & _ & Hkey & _).
  - reflexivity.
  - split; [exact Hv | exact Hkey].
Defined.

Lemma navigation_saturates_witness :
  currentIndex (@run UTC.host (repeat NextClick 7) (sample_open 2)) =
    Z.min (2 + 7) (5 - 1) /\
  currentIndex (@run UTC.host (repeat PrevClick 7) (sample_open 2)) =
    Z.max (2 - 7) 0.
Proof.
  destruct (@navigation_saturates UTC.host 7 (sample_open 2)) as [Hnext Hprev].
  split.
  - rewrite <- (sample_size 2). apply Hnext. rewrite sample_size.
    vm_compute. discriminate.
  - apply Hprev. vm_compute. discriminate.
Defined.

(** The load of the second thumbnail's image marks that thumbnail and leaves
    its neighbours unmarked. *)
Example thumbnail_load_scenario :
  let s := @dispatch UTC.host sample_loaded (ThumbLoad 1) in
  option_map thumb_loaded (thumbnail_at 0 s) = Some false /\
  option_map thumb_loaded (thumbnail_at 1 s) = Some true /\
  option_map thumb_loaded (thumbnail_at 2 s) = Some false /\
  option_map item_index (thumbnail_at 1 s) = Some 1%nat.
Proof. repeat split; reflexivity. Qed.
